(** * The Kubernetes bootstrap-manifest controller

    A shallow embedding of [internal/app/machined/pkg/controllers/k8s/manifest.go]:
    the renderer ([render]), the teardown path ([teardownAll]) and the
    reconciliation loop ([Run]) of [ManifestController], together with the
    properties of the controller that the specification states.

    The controller talks to its collaborators through the [controller.Runtime]
    interface.  The interface is embedded as a type class of state-passing
    operations; every call the controller makes is appended to a trace, so that
    statements about the order of the calls can be made. *)

From stdpp Require Import gmap strings list fin_maps.
From Stdlib.Strings Require Import Byte.

(** ** Go values *)

(** [[]byte]. *)
Abbreviation bytes := (list byte).

(** Go [error] values.  The runtime hands out errors that either are
    "not found" errors or are not; [fmt.Errorf("<msg>: %w", err)] wraps an
    error under a message. *)
Inductive error : Type :=
| NotFoundError (msg : string)
| OtherError (msg : string)
| Errorf (msg : string) (wrapped : error).

(** [state.IsNotFoundError]: looks through the chain of wrapped errors. *)
Fixpoint IsNotFoundError (err : error) : bool :=
  match err with
  | NotFoundError _ => true
  | OtherError _ => false
  | Errorf _ wrapped => IsNotFoundError wrapped
  end.

(** A Go result pair [(value, error)]. *)
Inductive result (A : Type) : Type :=
| Ok (a : A)
| Err (e : error).
Arguments Ok {A} a.
Arguments Err {A} e.

(** The [%q] verb on the manifest names, which are plain ASCII: the name
    between double quotes. *)
Definition quoted (s : string) : string :=
  let dq := String (Ascii.ascii_of_nat 34) EmptyString in
  dq +:+ s +:+ dq.

(** ** Snapshots, templates and the template engine *)

(** The two snapshot types are declared in the [resources/config] and
    [resources/secrets] packages.  The controller reads two fields of the
    configuration snapshot; everything else is only handed to the templates. *)
Class Snapshots : Type := {
  K8sManifestsSpec : Type;
  DNSServiceIPv6 : K8sManifestsSpec → string;
  FlannelEnabled : K8sManifestsSpec → bool;
  KubernetesSpec : Type;
}.

(** The template bodies ([templates.go]). *)
Class Templates : Type := {
  kubeletBootstrappingToken : bytes;
  csrNodeBootstrapTemplate : bytes;
  csrApproverRoleBindingTemplate : bytes;
  csrRenewalRoleBindingTemplate : bytes;
  kubeSystemSARoleBindingTemplate : bytes;
  podSecurityPolicy : bytes;
  kubeProxyTemplate : bytes;
  kubeConfigInClusterTemplate : bytes;
  coreDNSTemplate : bytes;
  coreDNSSvcTemplate : bytes;
  coreDNSv6SvcTemplate : bytes;
  flannelTemplate : bytes;
}.

(** The anonymous struct [templateConfig] of [render]: the configuration
    snapshot (embedded) and the secrets. *)
Record TemplateConfig `{Snapshots} : Type := {
  tc_K8sManifestsSpec : K8sManifestsSpec;
  Secrets : KubernetesSpec;
}.

(** [html/template]: [template.New(name).Parse(text)] and
    [tmpl.Execute(&buf, &templateConfig)], the latter returning the bytes
    written to the buffer. *)
Class TemplateEngine `{Snapshots} : Type := {
  Template : Type;
  template_Parse : string → bytes → result Template;
  template_Execute : Template → TemplateConfig → result bytes;
}.

Record renderedManifest : Type := {
  name : string;
  data : bytes;
}.

(** The local type [manifestDesc] of [render]. *)
Record manifestDesc : Type := {
  desc_name : string;
  desc_template : bytes;
}.

(** The names of a desired list, in order. *)
Definition names (manifests : list renderedManifest) : list string :=
  name <$> manifests.

(** ** The renderer *)

Section Renderer.
Context `{Snapshots} `{Templates} `{!TemplateEngine}.

(** The slice literal [defaultManifests]. *)
Definition defaultManifests : list manifestDesc := [
  {| desc_name := "00-kubelet-bootstrapping-token"; desc_template := kubeletBootstrappingToken |};
  {| desc_name := "01-csr-node-bootstrap"; desc_template := csrNodeBootstrapTemplate |};
  {| desc_name := "01-csr-approver-role-binding"; desc_template := csrApproverRoleBindingTemplate |};
  {| desc_name := "01-csr-renewal-role-binding"; desc_template := csrRenewalRoleBindingTemplate |};
  {| desc_name := "02-kube-system-sa-role-binding"; desc_template := kubeSystemSARoleBindingTemplate |};
  {| desc_name := "03-default-pod-security-policy"; desc_template := podSecurityPolicy |};
  {| desc_name := "10-kube-proxy"; desc_template := kubeProxyTemplate |};
  {| desc_name := "11-kube-config-in-cluster"; desc_template := kubeConfigInClusterTemplate |};
  {| desc_name := "11-core-dns"; desc_template := coreDNSTemplate |};
  {| desc_name := "11-core-dns-svc"; desc_template := coreDNSSvcTemplate |}
].

(** The two conditional [append]s of [render]. *)
Definition manifestDescs (cfg : K8sManifestsSpec) : list manifestDesc :=
  let defaultManifests := defaultManifests in
  let defaultManifests :=
    if bool_decide (DNSServiceIPv6 cfg ≠ "")
    then defaultManifests ++
           [ {| desc_name := "11-core-dns-v6-svc"; desc_template := coreDNSv6SvcTemplate |} ]
    else defaultManifests in
  let defaultManifests :=
    if FlannelEnabled cfg
    then defaultManifests ++
           [ {| desc_name := "05-flannel"; desc_template := flannelTemplate |} ]
    else defaultManifests in
  defaultManifests.

(** The loop [for i := range defaultManifests] of [render]: parse and
    execute each template in order, leaving at the first error. *)
Fixpoint executeAll (templateConfig : TemplateConfig) (descs : list manifestDesc)
  : result (list renderedManifest) :=
  match descs with
  | [] => Ok []
  | d :: rest =>
      match template_Parse (desc_name d) (desc_template d) with
      | Err err =>
          Err (Errorf ("error parsing manifest template " +:+ quoted (desc_name d)) err)
      | Ok tmpl =>
          match template_Execute tmpl templateConfig with
          | Err err =>
              Err (Errorf ("error executing template " +:+ quoted (desc_name d)) err)
          | Ok buf =>
              match executeAll templateConfig rest with
              | Err err => Err err
              | Ok manifests => Ok ({| name := desc_name d; data := buf |} :: manifests)
              end
          end
      end
  end.

Definition render (cfg : K8sManifestsSpec) (scrt : KubernetesSpec)
  : result (list renderedManifest) :=
  let templateConfig := {| tc_K8sManifestsSpec := cfg; Secrets := scrt |} in
  executeAll templateConfig (manifestDescs cfg).

(** The names [render] produces for a configuration snapshot. *)
Definition manifestNames (cfg : K8sManifestsSpec) : list string :=
  desc_name <$> manifestDescs cfg.

Definition defaultNames : list string := desc_name <$> defaultManifests.

End Renderer.

(** ** Resources *)

(** [resource.Version]; the controller only ever builds [VersionUndefined]. *)
Inductive Version : Type :=
| VersionUndefined
| VersionOf (n : nat).

(** [resource.Metadata]: the identity (namespace, type, id) and a version. *)
Record Metadata : Type := NewMetadata {
  Namespace : string;
  Type_ : string;
  ID : string;
  Version_ : Version;
}.

(** [controller.DependencyKind] and [controller.Dependency]. *)
Inductive DependencyKind : Type :=
| DependencyStrong
| DependencyWeak.

Record Dependency : Type := {
  dep_Namespace : string;
  dep_Type : string;
  dep_ID : option string;
  dep_Kind : DependencyKind;
}.

(** The constants of the [resources/config], [resources/secrets] and
    [resources/k8s] packages that name the identities the controller uses. *)
Class ResourceNames : Type := {
  config_NamespaceName : string;
  config_K8sControlPlaneType : string;
  config_K8sManifestsID : string;
  secrets_NamespaceName : string;
  secrets_KubernetesType : string;
  secrets_KubernetesID : string;
  k8s_ControlPlaneNamespaceName : string;
  k8s_ManifestType : string;
}.

(** [resource.Resource]: the three resource types the controller meets.
    A [K8sControlPlane] read under [K8sManifestsID] carries the configuration
    snapshot that [Manifests()] returns, a [Kubernetes] the secret snapshot
    that [Secrets()] returns.

    Modelled from the spec: [k8s.Manifest] is declared in the
    [resources/k8s] package; following the data model of the spec it is
    an entry that holds the last-applied payload. *)
Inductive Resource `{Snapshots} : Type :=
| K8sControlPlane (md : Metadata) (spec : K8sManifestsSpec)
| Kubernetes (md : Metadata) (spec : KubernetesSpec)
| Manifest (md : Metadata) (yaml : bytes).

(** [Resource.Metadata()]. *)
Definition Metadata_of `{Snapshots} (r : Resource) : Metadata :=
  match r with
  | K8sControlPlane md _ => md
  | Kubernetes md _ => md
  | Manifest md _ => md
  end.

(** Modelled from the spec: [k8s.NewManifest(ns, id)] of the
    [resources/k8s] package, a manifest with an empty payload.  The version
    that the constructor gives to a new manifest is not to be seen in the
    sources and is not modelled: the metadata stand for the identity
    (namespace, type, id) only, with the version left undefined. *)
Definition NewManifest `{Snapshots} `{ResourceNames} (ns id : string) : Resource :=
  Manifest (NewMetadata ns k8s_ManifestType id VersionUndefined) [].

(** Modelled from the spec: the method [SetYAML] of [k8s.Manifest] (package
    [resources/k8s]) decodes the YAML documents and fails when they do not decode;
    on success the manifest holds the given payload. *)
Class YAMLDecoder : Type := {
  yaml_decode_error : bytes → option error;
}.

Definition SetYAML `{Snapshots} `{YAMLDecoder} (md : Metadata) (yamlBytes : bytes)
  : result Resource :=
  match yaml_decode_error yamlBytes with
  | Some err => Err err
  | None => Ok (Manifest md yamlBytes)
  end.

(** ** The runtime *)

(** [controller.Runtime], as far as the controller uses it.  Each operation
    transforms the state of the runtime, of some type [S], and returns its Go
    result; [None] stands for a panic that unwinds through the call (as the
    type assertion inside the mutator handed to [Update] can). *)
Class Runtime `{Snapshots} (S : Type) : Type := {
  rt_UpdateDependencies : list Dependency → S → option (option error) * S;
  rt_Get : Metadata → S → option (result Resource) * S;
  rt_List : Metadata → S → option (result (list Resource)) * S;
  rt_Update : Resource → (Resource → option (result Resource)) → S → option (option error) * S;
  rt_Destroy : Metadata → S → option (option error) * S;
}.

(** The calls the controller makes, as they are recorded in the trace:
    the runtime operations with their identity argument, and the [select]
    in which the loop suspends. *)
Inductive Call : Type :=
| CallUpdateDependencies (deps : list Dependency)
| CallSelect
| CallGet (md : Metadata)
| CallList (md : Metadata)
| CallUpdate (md : Metadata)
| CallDestroy (md : Metadata).

(** The world the controller runs in: the state of the runtime and the trace
    of the calls made so far. *)
Record World (S : Type) : Type := {
  st : S;
  trace : list Call;
}.
Arguments st {S} w.
Arguments trace {S} w.

(** Controller code: it transforms the world and either yields a value or
    panics ([None]). *)
Definition M (S A : Type) : Type := World S → option A * World S.

Definition ret {S A} (a : A) : M S A := λ w, (Some a, w).

Definition bind {S A B} (m : M S A) (k : A → M S B) : M S B :=
  λ w, match m w with
       | (Some a, w') => k a w'
       | (None, w') => (None, w')
       end.

Definition panic {S A} : M S A := λ w, (None, w).

(** Record a call in the trace. *)
Definition log {S} (c : Call) : M S unit :=
  λ w, (Some tt, {| st := st w; trace := trace w ++ [c] |}).

(** Make a call: record it and let the runtime operation run on the state. *)
Definition call {S A} (c : Call) (op : S → option A * S) : M S A :=
  λ w, let '(r, s') := op (st w) in
       (r, {| st := s'; trace := trace w ++ [c] |}).

Notation "x <- m ;; k" := (bind m (λ x, k))
  (at level 100, m at next level, right associativity).

(** The order in which a [range] over a Go map yields the keys is not
    specified and may differ from one loop to the next: here it is any
    enumeration of the keys that may depend on the calls made so far. *)
Class MapRange : Type := {
  rangeOrder : list Call → gset string → list string;
  rangeOrder_perm : ∀ calls X, rangeOrder calls X ≡ₚ elements X;
}.

(** How one pass through the body of the [for] loop of [Run] ends:
    with [continue] (or at the end of the body), or with [return err]. *)
Inductive flow : Type :=
| Continue
| Return (err : option error).

(** Which case of the [select] fired: [<-ctx.Done()] or [<-r.EventCh()]. *)
Inductive Signal : Type :=
| Done
| Event.

(** How [Run] ends on a finite sequence of signals: it returned, or it is
    suspended in the [select] with no signal left to receive. *)
Inductive exit : Type :=
| Returned (err : option error)
| Waiting.

(** ** The controller *)

Section Controller.
Context `{Snapshots} `{Templates} `{!TemplateEngine} `{ResourceNames} `{YAMLDecoder}.
Context `{MapRange} {S : Type} `{!Runtime S}.

(** The calls into the runtime [r]. *)
Definition r_UpdateDependencies (deps : list Dependency) : M S (option error) :=
  call (CallUpdateDependencies deps) (rt_UpdateDependencies deps).

Definition r_Get (md : Metadata) : M S (result Resource) :=
  call (CallGet md) (rt_Get md).

Definition r_List (md : Metadata) : M S (result (list Resource)) :=
  call (CallList md) (rt_List md).

Definition r_Update (new : Resource) (f : Resource → option (result Resource))
  : M S (option error) :=
  call (CallUpdate (Metadata_of new)) (rt_Update new f).

Definition r_Destroy (md : Metadata) : M S (option error) :=
  call (CallDestroy md) (rt_Destroy md).

(** The keys of a Go map in the order a [range] over it yields them. *)
Definition range (X : gset string) : M S (list string) :=
  λ w, (Some (rangeOrder (trace w) X), w).

(** The type assertions of lines 78 and 93, to a [config.K8sControlPlane]
    (followed by [Manifests()]) and to a [secrets.Kubernetes] (followed by
    [Secrets()]): they panic on a resource of another type. *)
Definition Manifests (configResource : Resource) : M S K8sManifestsSpec :=
  match configResource with
  | K8sControlPlane _ spec => ret spec
  | _ => panic
  end.

Definition Secrets_of (secretsResources : Resource) : M S KubernetesSpec :=
  match secretsResources with
  | Kubernetes _ spec => ret spec
  | _ => panic
  end.

(** The mutator handed to [r.Update] in lines 104-106: it asserts that the
    resource is a [k8s.Manifest] and calls [SetYAML] with the rendered data. *)
Definition setYAML (yamlBytes : bytes) (r : Resource) : option (result Resource) :=
  match r with
  | Manifest md _ => Some (SetYAML md yamlBytes)
  | _ => None
  end.

(** The identity under which the managed namespace is listed:
    every manifest of the control plane namespace (empty id). *)
Definition manifestsMetadata : Metadata :=
  NewMetadata k8s_ControlPlaneNamespaceName k8s_ManifestType "" VersionUndefined.

Definition manifestMetadata (id : string) : Metadata :=
  NewMetadata k8s_ControlPlaneNamespaceName k8s_ManifestType id VersionUndefined.

(** [teardownAll], lines 211-215: destroy every listed manifest, leaving at
    the first error. *)
Fixpoint destroyListed (manifests : list Resource) : M S (option error) :=
  match manifests with
  | [] => ret None
  | manifest :: rest =>
      err <- r_Destroy (Metadata_of manifest) ;;
      match err with
      | Some err => ret (Some (Errorf "error destroying manifest" err))
      | None => destroyListed rest
      end
  end.

Definition teardownAll : M S (option error) :=
  manifests <- r_List manifestsMetadata ;;
  match manifests with
  | Err err => ret (Some (Errorf "error listing manifests" err))
  | Ok manifests => destroyListed manifests
  end.

(** [Run], lines 100-109: upsert every rendered manifest. *)
Fixpoint updateRendered (renderedManifests : list renderedManifest) : M S (option error) :=
  match renderedManifests with
  | [] => ret None
  | renderedManifest :: rest =>
      err <- r_Update (NewManifest k8s_ControlPlaneNamespaceName (name renderedManifest))
                      (setYAML (data renderedManifest)) ;;
      match err with
      | Some err => ret (Some (Errorf "error updating manifests" err))
      | None => updateRendered rest
      end
  end.

(** [Run], lines 117-125: the map [manifestsToDelete], filled with the listed
    ids and then relieved of the rendered names. *)
Definition manifestsToDelete (manifests : list Resource)
    (renderedManifests : list renderedManifest) : gset string :=
  let manifestsToDelete : gset string :=
    foldl (λ m manifest, {[ ID (Metadata_of manifest) ]} ∪ m) ∅ manifests in
  foldl (λ m renderedManifest, m ∖ {[ name renderedManifest ]})
        manifestsToDelete renderedManifests.

(** [Run], lines 127-131: destroy what is left in the map. *)
Fixpoint destroyIDs (ids : list string) : M S (option error) :=
  match ids with
  | [] => ret None
  | id :: rest =>
      err <- r_Destroy (manifestMetadata id) ;;
      match err with
      | Some err => ret (Some (Errorf "error cleaning up manifests" err))
      | None => destroyIDs rest
      end
  end.

(** [Run], lines 100-131: the convergence phase of a cycle. *)
Definition converge (renderedManifests : list renderedManifest) : M S flow :=
  err <- updateRendered renderedManifests ;;
  match err with
  | Some err => ret (Return (Some err))
  | None =>
      manifests <- r_List manifestsMetadata ;;
      match manifests with
      | Err err => ret (Return (Some (Errorf "error listing manifests" err)))
      | Ok manifests =>
          ids <- range (manifestsToDelete manifests renderedManifests) ;;
          err <- destroyIDs ids ;;
          match err with
          | Some err => ret (Return (Some err))
          | None => ret Continue
          end
      end
  end.

(** The branch taken when an input is not found, lines 67-73 and 82-88. *)
Definition teardown : M S flow :=
  err <- teardownAll ;;
  match err with
  | Some err => ret (Return (Some (Errorf "error tearing down" err)))
  | None => ret Continue
  end.

(** The identities of the two inputs, lines 65 and 80. *)
Definition configMetadata : Metadata :=
  NewMetadata config_NamespaceName config_K8sControlPlaneType config_K8sManifestsID
              VersionUndefined.

Definition secretsMetadata : Metadata :=
  NewMetadata secrets_NamespaceName secrets_KubernetesType secrets_KubernetesID
              VersionUndefined.

(** [Run], lines 65-131: one pass through the body of the loop after the
    [select]. *)
Definition cycle : M S flow :=
  configResource <- r_Get configMetadata ;;
  match configResource with
  | Err err => if IsNotFoundError err then teardown else ret (Return (Some err))
  | Ok configResource =>
      config <- Manifests configResource ;;
      secretsResources <- r_Get secretsMetadata ;;
      match secretsResources with
      | Err err => if IsNotFoundError err then teardown else ret (Return (Some err))
      | Ok secretsResources =>
          secrets <- Secrets_of secretsResources ;;
          match render config secrets with
          | Err err => ret (Return (Some err))
          | Ok renderedManifests => converge renderedManifests
          end
      end
  end.

(** [Run], lines 58-132: the loop.  Each iteration suspends in the [select];
    [Done] makes [Run] return nil, [Event] starts a cycle. *)
Fixpoint loop (signals : list Signal) : M S exit :=
  match signals with
  | [] => _ <- log CallSelect ;; ret Waiting
  | Done :: _ => _ <- log CallSelect ;; ret (Returned None)
  | Event :: rest =>
      _ <- log CallSelect ;;
      f <- cycle ;;
      match f with
      | Continue => loop rest
      | Return err => ret (Returned err)
      end
  end.

(** The dependencies declared in lines 41-53. *)
Definition dependencies : list Dependency := [
  {| dep_Namespace := config_NamespaceName;
     dep_Type := config_K8sControlPlaneType;
     dep_ID := Some config_K8sManifestsID;
     dep_Kind := DependencyWeak |};
  {| dep_Namespace := secrets_NamespaceName;
     dep_Type := secrets_KubernetesType;
     dep_ID := Some secrets_KubernetesID;
     dep_Kind := DependencyWeak |}
].

Definition Run (signals : list Signal) : M S exit :=
  err <- r_UpdateDependencies dependencies ;;
  match err with
  | Some err => ret (Returned (Some (Errorf "error setting up dependencies" err)))
  | None => loop signals
  end.

End Controller.

(** ** The contract of the runtime on the managed namespace *)

(** The managed namespace is the set of manifests of the control plane
    namespace.  [managed] reads it off the state of a runtime as a map from
    ids to payloads.  The contract (section 6 of the specification) says what
    a successful [List], [Update] and [Destroy] on the managed namespace do
    to it; nothing is asked of an operation that fails. *)
Class RuntimeLaws `{Snapshots} `{ResourceNames} {S : Type} `{!Runtime S}
    (managed : S → gmap string bytes) : Prop := {
  law_List : ∀ s manifests s',
    rt_List manifestsMetadata s = (Some (Ok manifests), s') →
    managed s' = managed s
    ∧ (∀ id, id ∈ (ID ∘ Metadata_of) <$> manifests ↔ id ∈ dom (managed s))
    ∧ Forall (λ r, Namespace (Metadata_of r) = k8s_ControlPlaneNamespaceName
                   ∧ Type_ (Metadata_of r) = k8s_ManifestType) manifests;
  law_Update : ∀ id f s s',
    rt_Update (NewManifest k8s_ControlPlaneNamespaceName id) f s = (Some None, s') →
    ∃ old md yaml,
      f old = Some (Ok (Manifest md yaml)) ∧ managed s' = <[id := yaml]> (managed s);
  law_Destroy : ∀ md s s',
    Namespace md = k8s_ControlPlaneNamespaceName →
    Type_ md = k8s_ManifestType →
    rt_Destroy md s = (Some None, s') →
    managed s' = delete (ID md) (managed s);
}.

(** ** An in-memory runtime *)

(** A runtime that keeps the managed namespace in a map.  Its answers to
    [UpdateDependencies] and to the two reads are part of its state, and so
    is a list of the store failures to come: every [List], [Update] and
    [Destroy] takes the head of [mem_faults] and fails with it when it is an
    error.  Destroying an identity that is not there is a not-found error. *)
Record MemState `{Snapshots} : Type := {
  mem_deps : option error;
  mem_config : result Resource;
  mem_secrets : result Resource;
  mem_manifests : gmap string bytes;
  mem_faults : list (option error);
}.

Section InMemory.
Context `{Snapshots} `{ResourceNames}.

Definition mem_set_manifests (s : MemState) (m : gmap string bytes) : MemState :=
  {| mem_deps := mem_deps s; mem_config := mem_config s; mem_secrets := mem_secrets s;
     mem_manifests := m; mem_faults := mem_faults s |}.

(** Take the next fault. *)
Definition mem_fault (s : MemState) : option error * MemState :=
  match mem_faults s with
  | [] => (None, s)
  | fault :: rest =>
      (fault, {| mem_deps := mem_deps s; mem_config := mem_config s;
                 mem_secrets := mem_secrets s; mem_manifests := mem_manifests s;
                 mem_faults := rest |})
  end.

Definition is_managed (md : Metadata) : bool :=
  bool_decide (Namespace md = k8s_ControlPlaneNamespaceName ∧ Type_ md = k8s_ManifestType).

Definition mem_UpdateDependencies (deps : list Dependency) (s : MemState)
  : option (option error) * MemState :=
  (Some (mem_deps s), s).

Definition mem_Get (md : Metadata) (s : MemState) : option (result Resource) * MemState :=
  if bool_decide (Namespace md = config_NamespaceName ∧ Type_ md = config_K8sControlPlaneType
                  ∧ ID md = config_K8sManifestsID)
  then (Some (mem_config s), s)
  else if bool_decide (Namespace md = secrets_NamespaceName ∧ Type_ md = secrets_KubernetesType
                       ∧ ID md = secrets_KubernetesID)
  then (Some (mem_secrets s), s)
  else (Some (Err (NotFoundError "resource doesn't exist")), s).

(** [intruder] are the ids that another writer destroys right after the
    listing was taken; the in-memory runtime proper has none. *)
Definition mem_List (intruder : list string) (md : Metadata) (s : MemState)
  : option (result (list Resource)) * MemState :=
  let '(fault, s) := mem_fault s in
  match fault with
  | Some err => (Some (Err err), s)
  | None =>
      if is_managed md
      then (Some (Ok ((λ '(id, yaml), Manifest (manifestMetadata id) yaml)
                        <$> map_to_list (mem_manifests s))),
            mem_set_manifests s (foldr delete (mem_manifests s) intruder))
      else (Some (Ok []), s)
  end.

Definition mem_Update (new : Resource) (f : Resource → option (result Resource))
    (s : MemState) : option (option error) * MemState :=
  let '(fault, s) := mem_fault s in
  match fault with
  | Some err => (Some (Some err), s)
  | None =>
      if is_managed (Metadata_of new)
      then
        let id := ID (Metadata_of new) in
        let old := match mem_manifests s !! id with
                   | Some yaml => Manifest (Metadata_of new) yaml
                   | None => new
                   end in
        match f old with
        | None => (None, s)
        | Some (Err err) => (Some (Some err), s)
        | Some (Ok (Manifest _ yaml)) =>
            (Some None, mem_set_manifests s (<[id := yaml]> (mem_manifests s)))
        | Some (Ok _) => (Some (Some (OtherError "resource type changed")), s)
        end
      else (Some (Some (OtherError "not the managed namespace")), s)
  end.

Definition mem_Destroy (md : Metadata) (s : MemState) : option (option error) * MemState :=
  let '(fault, s) := mem_fault s in
  match fault with
  | Some err => (Some (Some err), s)
  | None =>
      if is_managed md
      then
        match mem_manifests s !! ID md with
        | Some _ => (Some None, mem_set_manifests s (delete (ID md) (mem_manifests s)))
        | None => (Some (Some (NotFoundError "resource doesn't exist")), s)
        end
      else (Some (Some (OtherError "not the managed namespace")), s)
  end.

#[export] Instance mem_Runtime : Runtime MemState := {
  rt_UpdateDependencies := mem_UpdateDependencies;
  rt_Get := mem_Get;
  rt_List := mem_List [];
  rt_Update := mem_Update;
  rt_Destroy := mem_Destroy;
}.

(** The same store with a second writer that destroys [intruder] between a
    listing and what follows it. *)
Definition racy_Runtime (intruder : list string) : Runtime MemState := {|
  rt_UpdateDependencies := mem_UpdateDependencies;
  rt_Get := mem_Get;
  rt_List := mem_List intruder;
  rt_Update := mem_Update;
  rt_Destroy := mem_Destroy;
|}.

End InMemory.

(** A Go map ranged over in the order of [elements]. *)
Definition elements_MapRange : MapRange :=
  {| rangeOrder := λ _ X, elements X;
     rangeOrder_perm := λ _ X, reflexivity (elements X) |}.

(** ** An example instantiation

    A configuration snapshot with only the two fields the controller reads,
    one-byte templates, a template engine that appends the secret to the
    template, and made-up resource names. *)

Record exampleConfig : Type := {
  ex_DNSServiceIPv6 : string;
  ex_FlannelEnabled : bool;
}.

Definition ex_Snapshots : Snapshots :=
  {| K8sManifestsSpec := exampleConfig;
     DNSServiceIPv6 := ex_DNSServiceIPv6;
     FlannelEnabled := ex_FlannelEnabled;
     KubernetesSpec := string |}.

Definition ex_Templates : Templates :=
  {| kubeletBootstrappingToken := [x01];
     csrNodeBootstrapTemplate := [x02];
     csrApproverRoleBindingTemplate := [x03];
     csrRenewalRoleBindingTemplate := [x04];
     kubeSystemSARoleBindingTemplate := [x05];
     podSecurityPolicy := [x06];
     kubeProxyTemplate := [x07];
     kubeConfigInClusterTemplate := [x08];
     coreDNSTemplate := [x09];
     coreDNSSvcTemplate := [x0a];
     coreDNSv6SvcTemplate := [x0b];
     flannelTemplate := [x0c] |}.

Definition ex_TemplateEngine : @TemplateEngine ex_Snapshots :=
  {| Template := bytes;
     template_Parse := λ _ text, Ok text;
     template_Execute := λ tmpl templateConfig,
       Ok (tmpl ++ String.list_byte_of_string (@Secrets ex_Snapshots templateConfig)) |}.

Definition ex_ResourceNames : ResourceNames :=
  {| config_NamespaceName := "config";
     config_K8sControlPlaneType := "config.K8sControlPlane";
     config_K8sManifestsID := "k8s-manifests";
     secrets_NamespaceName := "secrets";
     secrets_KubernetesType := "secrets.Kubernetes";
     secrets_KubernetesID := "k8s";
     k8s_ControlPlaneNamespaceName := "controlplane";
     k8s_ManifestType := "kubernetes.Manifest" |}.

Definition ex_YAMLDecoder : YAMLDecoder :=
  {| yaml_decode_error := λ _, None |}.

(** A configuration with the IPv6 service and without flannel, and a secret. *)
Definition ex_config : @K8sManifestsSpec ex_Snapshots :=
  {| ex_DNSServiceIPv6 := "fd00::a"; ex_FlannelEnabled := false |}.

Definition ex_secret : @KubernetesSpec ex_Snapshots := "s3cr3t".

Definition ex_configResource : @Resource ex_Snapshots :=
  @K8sControlPlane ex_Snapshots
    (NewMetadata "config" "config.K8sControlPlane" "k8s-manifests" (VersionOf 1)) ex_config.

Definition ex_secretsResource : @Resource ex_Snapshots :=
  @Kubernetes ex_Snapshots
    (NewMetadata "secrets" "secrets.Kubernetes" "k8s" (VersionOf 1)) ex_secret.

(** The managed namespace left behind by an earlier cycle: a manifest that
    is still desired, with an old payload, and one that no longer is. *)
Definition ex_manifests : gmap string bytes :=
  <["10-kube-proxy" := [xff]]> (<["05-flannel" := [x0c]]> ∅).

(** Both inputs present, no store failure. *)
Definition ex_state : @MemState ex_Snapshots :=
  {| mem_deps := None;
     mem_config := Ok ex_configResource;
     mem_secrets := Ok ex_secretsResource;
     mem_manifests := ex_manifests;
     mem_faults := [] |}.

(** The configuration input is absent, no store failure. *)
Definition ex_state_no_config : @MemState ex_Snapshots :=
  {| mem_deps := None;
     mem_config := Err (NotFoundError "resource doesn't exist");
     mem_secrets := Ok ex_secretsResource;
     mem_manifests := ex_manifests;
     mem_faults := [] |}.

(** The configuration input is absent and the store fails on the next
    operation on the managed namespace. *)
Definition ex_state_no_config_faulty : @MemState ex_Snapshots :=
  {| mem_deps := None;
     mem_config := Err (NotFoundError "resource doesn't exist");
     mem_secrets := Ok ex_secretsResource;
     mem_manifests := ex_manifests;
     mem_faults := [Some (OtherError "store unavailable")] |}.

(** The runtime rejects the declaration of the dependencies. *)
Definition ex_state_rejecting : @MemState ex_Snapshots :=
  {| mem_deps := Some (OtherError "malformed dependency");
     mem_config := Ok ex_configResource;
     mem_secrets := Ok ex_secretsResource;
     mem_manifests := ex_manifests;
     mem_faults := [] |}.

Definition ex_world (s : @MemState ex_Snapshots) : World (@MemState ex_Snapshots) :=
  {| st := s; trace := [] |}.

(** The desired list of the example inputs. *)
Definition ex_desired : list renderedManifest :=
  match @render ex_Snapshots ex_Templates ex_TemplateEngine ex_config ex_secret with
  | Ok manifests => manifests
  | Err _ => []
  end.

(** ** Traces *)

(** The calls a cycle makes: all of them go to the store. *)
Definition is_store_call (c : Call) : Prop :=
  match c with
  | CallGet _ | CallList _ | CallUpdate _ | CallDestroy _ => True
  | CallUpdateDependencies _ | CallSelect => False
  end.

(** [emits P m]: whatever the world, running [m] only appends calls to the
    trace, and each of them satisfies [P]. *)
Definition emits {S A : Type} (P : Call → Prop) (m : M S A) : Prop :=
  ∀ w, ∃ calls, trace (m w).2 = trace w ++ calls ∧ Forall P calls.

(** The world after the loop has entered the [select]. *)
Definition selected {S : Type} (w : World S) : World S :=
  {| st := st w; trace := trace w ++ [CallSelect] |}.

(** The trace entries of the upserts and of the deletions of a cycle. *)
Definition upsertCall `{ResourceNames} (renderedManifest : renderedManifest) : Call :=
  CallUpdate (manifestMetadata (name renderedManifest)).

Definition destroyCall `{ResourceNames} (id : string) : Call :=
  CallDestroy (manifestMetadata id).

(** ** The managed resources *)

Section Managed.
Context `{ResourceNames}.

(** [ManifestController.Name]. *)
Definition Name : string := "k8s.ManifestController".

(** [ManifestController.ManagedResources]: the namespace and the type of the
    resources the controller declares as its own. *)
Definition ManagedResources : string * string :=
  (k8s_ControlPlaneNamespaceName, k8s_ManifestType).

(** An identity lies in the managed resources. *)
Definition in_ManagedResources (md : Metadata) : Prop :=
  Namespace md = ManagedResources.1 ∧ Type_ md = ManagedResources.2.

(** An identity is one of the declared dependencies. *)
Definition is_dependency (md : Metadata) : Prop :=
  ∃ d, d ∈ dependencies
       ∧ dep_Namespace d = Namespace md
       ∧ dep_Type d = Type_ md
       ∧ dep_ID d = Some (ID md).

End Managed.

(** [emits_at P m w]: from the world [w], running [m] only appends calls to
    the trace, and each of them satisfies [P]. *)
Definition emits_at {S A : Type} (P : Call → Prop) (m : M S A) (w : World S) : Prop :=
  ∃ calls, trace (m w).2 = trace w ++ calls ∧ Forall P calls.

(** A template engine that cannot execute the template of the DNS service
    (the one-byte template [x0a] of the example) and works as the example
    engine on the others. *)
Definition ex_failing_TemplateEngine : @TemplateEngine ex_Snapshots :=
  {| Template := bytes;
     template_Parse := λ _ text, Ok text;
     template_Execute := λ tmpl templateConfig,
       match tmpl with
       | [x0a] => Err (OtherError "template: can't evaluate field")
       | _ => Ok (tmpl ++ String.list_byte_of_string (@Secrets ex_Snapshots templateConfig))
       end |}.

(** The configuration input cannot be read, for another reason than its
    absence. *)
Definition ex_state_unreadable : @MemState ex_Snapshots :=
  {| mem_deps := None;
     mem_config := Err (OtherError "store unavailable");
     mem_secrets := Ok ex_secretsResource;
     mem_manifests := ex_manifests;
     mem_faults := [] |}.

(** Both inputs present; the store fails on the third operation on the
    managed namespace. *)
Definition ex_state_third_fails : @MemState ex_Snapshots :=
  {| mem_deps := None;
     mem_config := Ok ex_configResource;
     mem_secrets := Ok ex_secretsResource;
     mem_manifests := ex_manifests;
     mem_faults := [None; None; Some (OtherError "store unavailable")] |}.

(** ** The system mount points

    A shallow embedding of [internal/pkg/mount/system.go].  The block device
    library, the constants of [pkg/machinery/constants] and the mount points
    of the rest of the [mount] package are parameters. *)

Module mount.

(** Go [error] values of this package: [os.ErrNotExist], which the code
    compares with, any other error of a collaborator, and the errors made by
    [fmt.Errorf]: the format, the string operands of its [%s] and [%q]
    verbs, and the operand of [%w] when there is one (it may be nil). *)
#[warnings="-register-all"]
Inductive error : Type :=
| ErrNotExist
| OtherError (msg : string)
| Errorf (format : string) (args : list string) (wrapped : option error).

Inductive result (A : Type) : Type :=
| Ok (a : A)
| Err (e : error).
Arguments Ok {A} a.
Arguments Err {A} e.

(** The partition labels and the mount points of [pkg/machinery/constants]. *)
Class Constants : Type := {
  EphemeralPartitionLabel : string;
  BootPartitionLabel : string;
  EFIPartitionLabel : string;
  StatePartitionLabel : string;
  EphemeralMountPoint : string;
  BootMountPoint : string;
  EFIMountPoint : string;
  StateMountPoint : string;
}.

(** [blockdevice.BlockDevice] and its partitions: [blockdevice.Open],
    [GetPartition], which returns a partition (or nil) and an error (or nil),
    [Filesystem] and [Path]. *)
Class BlockDevices : Type := {
  BlockDevice : Type;
  Partition : Type;
  Open : string → result BlockDevice;
  GetPartition : BlockDevice → string → option Partition * option error;
  Filesystem : Partition → result string;
  Path : Partition → result string;
}.

(** The mount points of the package: [Option], [Point] with
    [NewMountPoint(source, target, fstype, flags, data, opts...)], [Points]
    with [NewMountPoints()] and [Set(alias, point)], where the point may be
    nil, and [Mount] and [Unmount]. *)
Class MountPoints : Type := {
  Option : Type;
  Point : Type;
  NewMountPoint : string → string → string → Z → string → list Option → Point;
  Points : Type;
  NewMountPoints : Points;
  Points_Set : Points → string → option Point → Points;
  Mount : Points → option error;
  Unmount : Points → option error;
}.

(** [r.State().Machine().Disk(disk.WithPartitionLabel(label))], followed by
    the field [BlockDevice] of the disk: the device with a partition of that
    label, or nil. *)
Class Machine `{BlockDevices} : Type := {
  runtime_Runtime : Type;
  Disk : runtime_Runtime → string → option BlockDevice;
}.

(** [unix.MS_NOATIME]. *)
Definition MS_NOATIME : Z := 1024.

Section System.
Context `{Constants} `{BlockDevices} `{MountPoints} `{!Machine}.

(** The [switch] of [SystemMountPointForLabel]: the first case that equals
    the label gives the target; [None] is the [default] case. *)
Definition target_of (label : string) : option string :=
  if bool_decide (label = EphemeralPartitionLabel) then Some EphemeralMountPoint
  else if bool_decide (label = BootPartitionLabel) then Some BootMountPoint
  else if bool_decide (label = EFIPartitionLabel) then Some EFIMountPoint
  else if bool_decide (label = StatePartitionLabel) then Some StateMountPoint
  else None.

Definition SystemMountPointForLabel (device : BlockDevice) (label : string)
    (opts : list Option) : option Point * option error :=
  match target_of label with
  | None => (None, Some (Errorf "unknown label: %q" [label] None))
  | Some target =>
      let '(partition, err) := GetPartition device label in
      match err with
      | Some (OtherError _ as e) | Some (Errorf _ _ _ as e) => (None, Some e)
      | Some ErrNotExist | None =>
          match partition with
          | None =>
              if bool_decide (label = BootPartitionLabel)
              then (None, None)
              else (None,
                    Some (Errorf "failed to find device with label %s: %w" [label] err))
          | Some partition =>
              match Filesystem partition with
              | Err err => (None, Some err)
              | Ok fsType =>
                  match Path partition with
                  | Err err => (None, Some err)
                  | Ok partPath =>
                      (Some (NewMountPoint partPath target fsType MS_NOATIME "" opts), None)
                  end
              end
          end
      end
  end.

(** The loop of [SystemMountPointsForDevice] over the four labels: it
    leaves at the first error and otherwise sets the mount point, nil
    included, under the label. *)
Fixpoint setMountPoints (bd : BlockDevice) (opts : list Option) (labels : list string)
    (mountpoints : Points) : option Points * option error :=
  match labels with
  | [] => (Some mountpoints, None)
  | name :: rest =>
      match SystemMountPointForLabel bd name opts with
      | (_, Some err) => (None, Some err)
      | (mountpoint, None) =>
          setMountPoints bd opts rest (Points_Set mountpoints name mountpoint)
      end
  end.

(** [SystemMountPointsForDevice]: the result, and the devices closed by the
    deferred [bd.Close()]. *)
Definition SystemMountPointsForDevice (devpath : string) (opts : list Option)
  : (option Points * option error) * list BlockDevice :=
  let mountpoints := NewMountPoints in
  match Open devpath with
  | Err err => ((None, Some err), [])
  | Ok bd =>
      (setMountPoints bd opts
         [EphemeralPartitionLabel; BootPartitionLabel; EFIPartitionLabel;
          StatePartitionLabel] mountpoints,
       [bd])
  end.

Definition SystemPartitionMount (r : runtime_Runtime) (label : string)
    (opts : list Option) : option error :=
  match Disk r label with
  | None => Some (Errorf "failed to find device with partition labeled %s" [label] None)
  | Some device =>
      let mountpoints := NewMountPoints in
      match SystemMountPointForLabel device label opts with
      | (_, Some err) => Some err
      | (None, None) => Some (Errorf "no mountpoints for label %q" [label] None)
      | (Some mountpoint, None) =>
          let mountpoints := Points_Set mountpoints label (Some mountpoint) in
          Mount mountpoints
      end
  end.

Definition SystemPartitionUnmount (r : runtime_Runtime) (label : string) : option error :=
  match Disk r label with
  | None => Some (Errorf "failed to find device with partition labeled %s" [label] None)
  | Some device =>
      let mountpoints := NewMountPoints in
      match SystemMountPointForLabel device label [] with
      | (_, Some err) => Some err
      | (None, None) => Some (Errorf "no mountpoints for label %q" [label] None)
      | (Some mountpoint, None) =>
          let mountpoints := Points_Set mountpoints label (Some mountpoint) in
          Unmount mountpoints
      end
  end.

End System.

(** *** An example: a disk as the list of its partitions *)

Record exPartition : Type := {
  ex_label : string;
  ex_fs : result string;
  ex_path : string;
}.

Record exPoint : Type := {
  ex_source : string;
  ex_target : string;
  ex_fstype : string;
  ex_flags : Z;
  ex_data : string;
}.

Definition ex_Constants : Constants :=
  {| EphemeralPartitionLabel := "EPHEMERAL";
     BootPartitionLabel := "BOOT";
     EFIPartitionLabel := "EFI";
     StatePartitionLabel := "STATE";
     EphemeralMountPoint := "/var";
     BootMountPoint := "/boot";
     EFIMountPoint := "/boot/EFI";
     StateMountPoint := "/system/state" |}.

Fixpoint ex_find (label : string) (partitions : list exPartition) : option exPartition :=
  match partitions with
  | [] => None
  | p :: rest => if bool_decide (ex_label p = label) then Some p else ex_find label rest
  end.

(** A disk without boot partition. *)
Definition ex_disk : list exPartition :=
  [ {| ex_label := "EFI"; ex_fs := Ok "vfat"; ex_path := "/dev/sda1" |};
    {| ex_label := "STATE"; ex_fs := Ok "xfs"; ex_path := "/dev/sda5" |};
    {| ex_label := "EPHEMERAL"; ex_fs := Ok "xfs"; ex_path := "/dev/sda6" |} ].

(** The only device is [/dev/sda], the disk above. *)
Definition ex_BlockDevices : BlockDevices :=
  {| BlockDevice := list exPartition;
     Partition := exPartition;
     Open := λ devpath,
       if bool_decide (devpath = "/dev/sda") then Ok ex_disk
       else Err (OtherError "no such device");
     GetPartition := λ bd label,
       match ex_find label bd with
       | Some p => (Some p, None)
       | None => (None, Some ErrNotExist)
       end;
     Filesystem := ex_fs;
     Path := λ p, Ok (ex_path p) |}.

Definition ex_device : @BlockDevice ex_BlockDevices := ex_disk.

(** A device whose state partition has no filesystem that can be told. *)
Definition ex_broken_device : @BlockDevice ex_BlockDevices :=
  [ {| ex_label := "STATE"; ex_fs := Err (OtherError "unknown filesystem");
       ex_path := "/dev/sdb1" |} ].

Definition ex_MountPoints : MountPoints :=
  {| Option := unit;
     Point := exPoint;
     NewMountPoint := λ source target fstype flags data _,
       {| ex_source := source; ex_target := target; ex_fstype := fstype;
          ex_flags := flags; ex_data := data |};
     Points := list (string * option exPoint);
     NewMountPoints := [];
     Points_Set := λ points alias point, points ++ [(alias, point)];
     Mount := λ _, None;
     Unmount := λ _, None |}.

Definition ex_Machine : @Machine ex_BlockDevices :=
  {| runtime_Runtime := list exPartition;
     Disk := λ r label,
       match ex_find label r with
       | Some _ => Some (r : @BlockDevice ex_BlockDevices)
       | None => None
       end |}.

End mount.

(** ** Runs of cycles *)

Section Cycles.
Context `{Snapshots} `{Templates} `{!TemplateEngine} `{ResourceNames} `{YAMLDecoder}.
Context `{MapRange} {S : Type} `{!Runtime S}.

(** [cycles_continue events w w']: one cycle for each of the [events], each
    of them started from the [select] and ended with [continue] (so with no
    error and no panic), leads from the world [w] to the world [w']. *)
Fixpoint cycles_continue (events : list Signal) (w w' : World S) : Prop :=
  match events with
  | [] => w' = w
  | _ :: rest =>
      ∃ w1, cycle (selected w) = (Some Continue, w1) ∧ cycles_continue rest w1 w'
  end.

End Cycles.

(** ** The renderer on a template engine with a state of its own *)

(** [html/template] as a library that may keep a state of its own between
    calls: [template.New(name).Parse(text)] and [tmpl.Execute] read the state
    of the engine and leave a new one.  Two invocations of [render] in a row
    reach the engine in different states. *)
Class StatefulTemplateEngine `{Snapshots} : Type := {
  EngineState : Type;
  ParsedTemplate : Type;
  engine_Parse : string → bytes → EngineState → result ParsedTemplate * EngineState;
  engine_Execute :
    ParsedTemplate → TemplateConfig → EngineState → result bytes * EngineState;
}.

Section RendererWithState.
Context `{Snapshots} `{Templates} `{Engine : !StatefulTemplateEngine}.

(** The loop of [render], lines 186-200, with the state of the engine
    handed from each call of the engine to the next. *)
Fixpoint executeAllIn (templateConfig : TemplateConfig) (descs : list manifestDesc)
    (engine : EngineState) : result (list renderedManifest) * EngineState :=
  match descs with
  | [] => (Ok [], engine)
  | d :: rest =>
      let '(tmpl, engine) := engine_Parse (desc_name d) (desc_template d) engine in
      match tmpl with
      | Err err =>
          (Err (Errorf ("error parsing manifest template " +:+ quoted (desc_name d)) err),
           engine)
      | Ok tmpl =>
          let '(buf, engine) := engine_Execute tmpl templateConfig engine in
          match buf with
          | Err err =>
              (Err (Errorf ("error executing template " +:+ quoted (desc_name d)) err),
               engine)
          | Ok buf =>
              let '(manifests, engine) := executeAllIn templateConfig rest engine in
              match manifests with
              | Err err => (Err err, engine)
              | Ok manifests =>
                  (Ok ({| name := desc_name d; data := buf |} :: manifests), engine)
              end
          end
      end
  end.

(** [render], as an invocation that takes the engine in one state and leaves
    it in another. *)
Definition renderIn (cfg : K8sManifestsSpec) (scrt : KubernetesSpec)
    (engine : EngineState) : result (list renderedManifest) * EngineState :=
  let templateConfig := {| tc_K8sManifestsSpec := cfg; Secrets := scrt |} in
  executeAllIn templateConfig (manifestDescs cfg) engine.

(** The engine is deterministic: what [Parse] and [Execute] return depends
    on their arguments only, not on the state in which the engine is. *)
Definition engine_deterministic : Prop :=
  (∀ name text engine1 engine2,
     (engine_Parse name text engine1).1 = (engine_Parse name text engine2).1)
  ∧ (∀ tmpl templateConfig engine1 engine2,
       (engine_Execute tmpl templateConfig engine1).1
       = (engine_Execute tmpl templateConfig engine2).1).

End RendererWithState.

(** An engine without state of its own, as [render] has it, is an engine
    whose state is trivial. *)
Definition stateless_engine `{Snapshots} `{!TemplateEngine} : StatefulTemplateEngine :=
  {| EngineState := unit;
     ParsedTemplate := Template;
     engine_Parse := λ name text engine, (template_Parse name text, engine);
     engine_Execute := λ tmpl templateConfig engine,
       (template_Execute tmpl templateConfig, engine) |}.


Definition ex_leaking_TemplateEngine : @StatefulTemplateEngine ex_Snapshots :=
  {| EngineState := nat;
     ParsedTemplate := bytes;
     engine_Parse := λ _ text calls, (Ok text, S calls);
     engine_Execute := λ tmpl templateConfig calls,
       (Ok (tmpl ++ repeat x2a calls), S calls) |}.

(** * Properties *)

(** ** The renderer *)

Section RendererProperties.
Context `{Snapshots} `{Templates} `{!TemplateEngine}.

Lemma executeAll_names templateConfig descs manifests :
  executeAll templateConfig descs = Ok manifests →
  names manifests = desc_name <$> descs.
Proof.
  revert manifests.
  induction descs as [|d rest IH]; intros manifests Hexec; simpl in Hexec.
  - by inversion Hexec.
  - destruct (template_Parse _ _) as [tmpl|]; [|done].
    destruct (template_Execute _ _) as [buf|]; [|done].
    destruct (executeAll _ rest) as [ms|]; [|done].
    inversion Hexec; subst. unfold names in *. simpl. f_equal. by apply IH.
Qed.

(** Every rendered manifest is the output of the template engine on the
    template of the same position. *)
Lemma executeAll_outputs templateConfig descs manifests :
  executeAll templateConfig descs = Ok manifests →
  Forall2 (λ d m, name m = desc_name d
                  ∧ ∃ tmpl, template_Parse (desc_name d) (desc_template d) = Ok tmpl
                            ∧ template_Execute tmpl templateConfig = Ok (data m))
          descs manifests.
Proof.
  revert manifests.
  induction descs as [|d rest IH]; intros manifests Hexec; simpl in Hexec.
  - inversion Hexec. constructor.
  - destruct (template_Parse _ _) as [tmpl|] eqn:Hparse; [|done].
    destruct (template_Execute _ _) as [buf|] eqn:Hrun; [|done].
    destruct (executeAll _ rest) as [ms|]; [|done].
    inversion Hexec; subst. constructor; [|by apply IH].
    split; [done|]. exists tmpl. by rewrite Hparse.
Qed.

Lemma render_names cfg scrt manifests :
  render cfg scrt = Ok manifests → names manifests = manifestNames cfg.
Proof. apply executeAll_names. Qed.

Lemma manifestNames_cases cfg :
  manifestNames cfg =
    defaultNames
      ++ (if bool_decide (DNSServiceIPv6 cfg ≠ "") then ["11-core-dns-v6-svc"] else [])
      ++ (if FlannelEnabled cfg then ["05-flannel"] else []).
Proof.
  unfold manifestNames, manifestDescs.
  by destruct (bool_decide _), (FlannelEnabled cfg).
Qed.

Lemma defaultNames_eq :
  defaultNames =
    [ "00-kubelet-bootstrapping-token"; "01-csr-node-bootstrap";
      "01-csr-approver-role-binding"; "01-csr-renewal-role-binding";
      "02-kube-system-sa-role-binding"; "03-default-pod-security-policy";
      "10-kube-proxy"; "11-kube-config-in-cluster"; "11-core-dns";
      "11-core-dns-svc" ].
Proof. reflexivity. Qed.

Lemma manifestNames_NoDup cfg : NoDup (manifestNames cfg).
Proof.
  rewrite manifestNames_cases, defaultNames_eq.
  destruct (bool_decide _), (FlannelEnabled cfg);
    apply (bool_decide_unpack _); by vm_compute.
Qed.

Lemma NoDup_names_inj (manifests : list renderedManifest) m1 m2 :
  NoDup (names manifests) →
  m1 ∈ manifests → m2 ∈ manifests → name m1 = name m2 → m1 = m2.
Proof.
  unfold names. induction manifests as [|m rest IH]; intros Hnodup Hm1 Hm2 Hname.
  - by apply elem_of_nil in Hm1.
  - rewrite fmap_cons in Hnodup. apply NoDup_cons in Hnodup as [Hfresh Hnodup].
    apply elem_of_cons in Hm1 as [->|Hm1]; apply elem_of_cons in Hm2 as [->|Hm2].
    + done.
    + exfalso. apply Hfresh. rewrite Hname. by apply list_elem_of_fmap_2.
    + exfalso. apply Hfresh. rewrite <- Hname. by apply list_elem_of_fmap_2.
    + by apply IH.
Qed.

(** C7: which optional artifacts are rendered is decided by the renderer
    from the configuration snapshot alone.  A successful [render] yields the
    IPv6 DNS service manifest exactly when [DNSServiceIPv6] is not empty, the
    flannel manifest exactly when [FlannelEnabled] is set, and the ten default
    manifests always; the names it yields are a function of the
    configuration. *)
Theorem render_conditional_inclusion cfg scrt manifests :
  render cfg scrt = Ok manifests →
  ("11-core-dns-v6-svc" ∈ names manifests ↔ DNSServiceIPv6 cfg ≠ "")
  ∧ ("05-flannel" ∈ names manifests ↔ FlannelEnabled cfg = true)
  ∧ (∀ n, n ∈ [ "00-kubelet-bootstrapping-token"; "01-csr-node-bootstrap";
                "01-csr-approver-role-binding"; "01-csr-renewal-role-binding";
                "02-kube-system-sa-role-binding"; "03-default-pod-security-policy";
                "10-kube-proxy"; "11-kube-config-in-cluster"; "11-core-dns";
                "11-core-dns-svc" ] → n ∈ names manifests)
  ∧ names manifests = manifestNames cfg.
Proof.
  intros Hrender. apply render_names in Hrender. rewrite Hrender.
  rewrite manifestNames_cases, defaultNames_eq.
  split; [|split; [|split; [|done]]].
  - destruct (bool_decide_reflect (DNSServiceIPv6 cfg ≠ "")) as [Hv6|Hv6],
      (FlannelEnabled cfg); split; intros Hin; try done;
      try (by rewrite !elem_of_app, !elem_of_cons; auto 20);
      exfalso; revert Hin; apply (bool_decide_unpack _); by vm_compute.
  - destruct (bool_decide (DNSServiceIPv6 cfg ≠ "")), (FlannelEnabled cfg);
      split; intros Hin; try done;
      try (by rewrite !elem_of_app, !elem_of_cons; auto 20);
      exfalso; revert Hin; apply (bool_decide_unpack _); by vm_compute.
  - intros n Hn. apply elem_of_app. by left.
Qed.

(** C10: a successful [render] yields a list that is not empty, that holds
    the ten default manifests, and whose names are pairwise distinct, so that
    a name stands for at most one payload. *)
Theorem render_names_distinct cfg scrt manifests :
  render cfg scrt = Ok manifests →
  manifests ≠ []
  ∧ 10 ≤ length manifests
  ∧ (∀ n, n ∈ [ "00-kubelet-bootstrapping-token"; "01-csr-node-bootstrap";
                "01-csr-approver-role-binding"; "01-csr-renewal-role-binding";
                "02-kube-system-sa-role-binding"; "03-default-pod-security-policy";
                "10-kube-proxy"; "11-kube-config-in-cluster"; "11-core-dns";
                "11-core-dns-svc" ] → n ∈ names manifests)
  ∧ NoDup (names manifests)
  ∧ (∀ m1 m2, m1 ∈ manifests → m2 ∈ manifests → name m1 = name m2 → data m1 = data m2).
Proof.
  intros Hrender. apply render_names in Hrender.
  assert (Hlen : 10 ≤ length manifests).
  { rewrite <- (length_fmap name manifests). fold (names manifests).
    rewrite Hrender, manifestNames_cases, length_app. simpl. lia. }
  assert (Hnodup : NoDup (names manifests)).
  { rewrite Hrender. apply manifestNames_NoDup. }
  split; [|split; [done|split; [|split; [done|]]]].
  - intros ->. simpl in Hlen. lia.
  - intros n Hn. rewrite Hrender, manifestNames_cases, defaultNames_eq.
    apply elem_of_app. by left.
  - intros m1 m2 Hm1 Hm2 Hname. by rewrite (NoDup_names_inj manifests m1 m2).
Qed.

End RendererProperties.

(** ** Determinism of the renderer *)

Section RendererDeterminism.
Context `{Snapshots} `{Templates} `{Engine : !StatefulTemplateEngine}.



End RendererDeterminism.

Section RendererStateless.
Context `{Snapshots} `{Templates} `{!TemplateEngine}.

(** [render] is [renderIn] on the engine without state. *)
Lemma executeAllIn_stateless templateConfig descs engine :
  executeAllIn (Engine := stateless_engine) templateConfig descs engine
  = (executeAll templateConfig descs, engine).
Proof.
  induction descs as [|d rest IH]; simpl; [done|].
  destruct (template_Parse _ _) as [tmpl|]; [|done].
  destruct (template_Execute _ _) as [buf|]; [|done].
  rewrite IH. by destruct (executeAll templateConfig rest).
Qed.

Lemma renderIn_stateless cfg scrt engine :
  renderIn (Engine := stateless_engine) cfg scrt engine
  = (render cfg scrt, engine).
Proof. apply executeAllIn_stateless. Qed.

Lemma stateless_engine_deterministic :
  engine_deterministic (Engine := stateless_engine).
Proof. by split. Qed.

End RendererStateless.

(** ** The trace of the controller *)

Section TraceProperties.
Context `{Snapshots} `{Templates} `{!TemplateEngine} `{ResourceNames} `{YAMLDecoder}.
Context `{MapRange} {S : Type} `{!Runtime S}.

Lemma call_eq {A} (c : Call) (op : S → option A * S) (w : World S) :
  call c op w = ((op (st w)).1, {| st := (op (st w)).2; trace := trace w ++ [c] |}).
Proof. unfold call. by destruct (op (st w)). Qed.

Lemma emits_ret {A} (P : Call → Prop) (a : A) : emits (S:=S) P (ret a).
Proof. intros w. exists []. by rewrite app_nil_r. Qed.

Lemma emits_panic {A} (P : Call → Prop) : emits (S:=S) (A:=A) P panic.
Proof. intros w. exists []. by rewrite app_nil_r. Qed.

Lemma emits_bind {A B} (P : Call → Prop) (m : M S A) (k : A → M S B) :
  emits P m → (∀ a, emits P (k a)) → emits P (a <- m ;; k a).
Proof.
  intros Hm Hk w. unfold bind. destruct (Hm w) as (calls1 & Htrace1 & HP1).
  destruct (m w) as [[a|] w1]; simpl in *.
  - destruct (Hk a w1) as (calls2 & Htrace2 & HP2).
    exists (calls1 ++ calls2). rewrite Htrace2, Htrace1, app_assoc.
    split; [done|]. by apply Forall_app.
  - by exists calls1.
Qed.

Lemma emits_call {A} (P : Call → Prop) (c : Call) (op : S → option A * S) :
  P c → emits P (call c op).
Proof. intros HP w. exists [c]. rewrite call_eq. split; [done|]. by constructor. Qed.

Lemma emits_log (P : Call → Prop) (c : Call) : P c → emits (S:=S) P (log c).
Proof. intros HP w. exists [c]. split; [done|]. by constructor. Qed.

Lemma emits_range (P : Call → Prop) (X : gset string) : emits (S:=S) P (range X).
Proof. intros w. exists []. by rewrite app_nil_r. Qed.

Lemma emits_mono {A} (P Q : Call → Prop) (m : M S A) :
  (∀ c, P c → Q c) → emits P m → emits Q m.
Proof.
  intros HPQ Hm w. destruct (Hm w) as (calls & Htrace & HP).
  exists calls. split; [done|]. by eapply Forall_impl.
Qed.

Lemma destroyListed_emits manifests : emits is_store_call (destroyListed manifests).
Proof.
  induction manifests as [|manifest rest IH]; simpl.
  - apply emits_ret.
  - apply emits_bind; [by apply emits_call|].
    intros [err|]; [apply emits_ret|done].
Qed.

Lemma teardownAll_emits : emits is_store_call teardownAll.
Proof.
  apply emits_bind; [by apply emits_call|].
  intros [manifests|err]; [apply destroyListed_emits|apply emits_ret].
Qed.

Lemma teardown_emits : emits is_store_call teardown.
Proof.
  apply emits_bind; [apply teardownAll_emits|].
  intros [err|]; apply emits_ret.
Qed.

Lemma updateRendered_emits renderedManifests :
  emits is_store_call (updateRendered renderedManifests).
Proof.
  induction renderedManifests as [|rm rest IH]; simpl.
  - apply emits_ret.
  - apply emits_bind; [by apply emits_call|].
    intros [err|]; [apply emits_ret|done].
Qed.

Lemma destroyIDs_emits ids : emits is_store_call (destroyIDs ids).
Proof.
  induction ids as [|id rest IH]; simpl.
  - apply emits_ret.
  - apply emits_bind; [by apply emits_call|].
    intros [err|]; [apply emits_ret|done].
Qed.

Lemma converge_emits renderedManifests : emits is_store_call (converge renderedManifests).
Proof.
  apply emits_bind; [apply updateRendered_emits|].
  intros [err|]; [apply emits_ret|].
  apply emits_bind; [by apply emits_call|].
  intros [manifests|err]; [|apply emits_ret].
  apply emits_bind; [apply emits_range|]. intros ids.
  apply emits_bind; [apply destroyIDs_emits|].
  intros [err|]; apply emits_ret.
Qed.

Lemma cycle_emits : emits is_store_call cycle.
Proof.
  apply emits_bind; [by apply emits_call|].
  intros [configResource|err];
    [|destruct (IsNotFoundError err); [apply teardown_emits|apply emits_ret]].
  apply emits_bind.
  { destruct configResource; first [apply emits_ret|apply emits_panic]. }
  intros config. apply emits_bind; [by apply emits_call|].
  intros [secretsResources|err];
    [|destruct (IsNotFoundError err); [apply teardown_emits|apply emits_ret]].
  apply emits_bind.
  { destruct secretsResources; first [apply emits_ret|apply emits_panic]. }
  intros secrets. destruct (render config secrets); [apply converge_emits|apply emits_ret].
Qed.

Lemma loop_emits signals :
  emits (λ c, c = CallSelect ∨ is_store_call c) (loop signals).
Proof.
  induction signals as [|[|] rest IH]; simpl.
  - apply emits_bind; [apply emits_log; by left|]. intros _. apply emits_ret.
  - apply emits_bind; [apply emits_log; by left|]. intros _. apply emits_ret.
  - apply emits_bind; [apply emits_log; by left|]. intros _.
    apply emits_bind; [eapply emits_mono; [|apply cycle_emits]; by right|].
    intros [|err]; [done|apply emits_ret].
Qed.

End TraceProperties.

(** ** The reconciler loop *)

Section LoopProperties.
Context `{Snapshots} `{Templates} `{!TemplateEngine} `{ResourceNames} `{YAMLDecoder}.
Context `{MapRange} {S : Type} `{!Runtime S}.

Lemma loop_Event rest (wp : World S) :
  loop (Event :: rest) wp =
    match cycle (selected wp) with
    | (Some Continue, w') => loop rest w'
    | (Some (Return err), w') => (Some (Returned err), w')
    | (None, w') => (None, w')
    end.
Proof.
  simpl. unfold bind at 1. simpl. fold (selected wp). unfold bind at 1.
  by destruct (cycle (selected wp)) as [[[|err]|] w'].
Qed.

Lemma loop_enters_select signals (w : World S) :
  ∃ calls, trace (loop signals w).2 = trace w ++ CallSelect :: calls.
Proof.
  destruct signals as [|[|] rest].
  - by exists [].
  - by exists [].
  - rewrite loop_Event.
    destruct (cycle_emits (selected w)) as (calls1 & Htrace1 & _).
    destruct (cycle (selected w)) as [[[|err]|] w']; simpl in *.
    + destruct (loop_emits rest w') as (calls2 & Htrace2 & _).
      exists (calls1 ++ calls2).
      rewrite Htrace2, Htrace1. simpl. by rewrite <- !app_assoc.
    + exists calls1. rewrite Htrace1. simpl. by rewrite <- app_assoc.
    + exists calls1. rewrite Htrace1. simpl. by rewrite <- app_assoc.
Qed.

(** C9: the dependencies are declared exactly once, before the loop is
    entered.  The trace of [Run] starts with the declaration of the two
    inputs, the configuration identity and the secret identity, both weak,
    and holds no other declaration; when the runtime rejects the declaration,
    [Run] returns that error (wrapped) and makes no other call: the loop is
    never started and the [select] never entered. *)
Theorem Run_declares_dependencies_once signals (w : World S) :
  ∃ rest,
    trace (Run signals w).2 =
      trace w ++
        CallUpdateDependencies [
            {| dep_Namespace := config_NamespaceName;
               dep_Type := config_K8sControlPlaneType;
               dep_ID := Some config_K8sManifestsID;
               dep_Kind := DependencyWeak |};
            {| dep_Namespace := secrets_NamespaceName;
               dep_Type := secrets_KubernetesType;
               dep_ID := Some secrets_KubernetesID;
               dep_Kind := DependencyWeak |} ] :: rest
    ∧ (∀ deps, CallUpdateDependencies deps ∉ rest)
    ∧ (∀ err s', rt_UpdateDependencies dependencies (st w) = (Some (Some err), s') →
         rest = []
         ∧ Run signals w =
             (Some (Returned (Some (Errorf "error setting up dependencies" err))),
              {| st := s'; trace := trace w ++ [CallUpdateDependencies dependencies] |}))
    ∧ (∀ s', rt_UpdateDependencies dependencies (st w) = (Some None, s') →
         ∃ calls, rest = CallSelect :: calls).
Proof.
  unfold Run, bind, r_UpdateDependencies. rewrite call_eq.
  destruct (rt_UpdateDependencies dependencies (st w)) as [[[err|]|] s1]; simpl.
  - exists []. split; [done|]. split; [intros deps Hin; by apply elem_of_nil in Hin|].
    split; [|done]. intros err' s' [= <- <-]. done.
  - set (w1 := {| st := s1; trace := trace w ++ [CallUpdateDependencies dependencies] |}).
    destruct (loop_emits signals w1) as (calls & Htrace & Hcalls).
    exists calls. split; [|split; [|split; [done|]]].
    + rewrite Htrace. simpl. by rewrite <- app_assoc.
    + intros deps Hin. rewrite Forall_forall in Hcalls.
      by destruct (Hcalls _ Hin).
    + intros s' _. destruct (loop_enters_select signals w1) as (calls' & Htrace').
      rewrite Htrace' in Htrace. apply app_inv_head in Htrace. by exists calls'.
  - exists []. split; [done|]. split; [intros deps Hin; by apply elem_of_nil in Hin|].
    done.
Qed.

(** C8: the loop returns nil when the [select] sees the cancellation, and
    cancellation is seen nowhere else.  Suspended in the [select], the loop,
    and with it [Run], returns nil on [Done] without another call.  A cycle
    never enters the [select]: all its calls go to the store; and when a
    wake-up is followed by the cancellation, the cycle is run to its end
    first, and the loop then returns nil from the [select] (or the error with
    which the cycle ended). *)
Theorem loop_cancellation rest (wp : World S) :
  loop (Done :: rest) wp = (Some (Returned None), selected wp)
  ∧ (∀ s', rt_UpdateDependencies dependencies (st wp) = (Some None, s') →
       Run (Done :: rest) wp
       = (Some (Returned None),
          {| st := s';
             trace := trace wp ++ [CallUpdateDependencies dependencies; CallSelect] |}))
  ∧ (∃ calls, trace (cycle (selected wp)).2 = trace (selected wp) ++ calls
              ∧ Forall is_store_call calls ∧ CallSelect ∉ calls)
  ∧ loop (Event :: Done :: rest) wp =
      match cycle (selected wp) with
      | (Some Continue, w') => (Some (Returned None), selected w')
      | (Some (Return err), w') => (Some (Returned err), w')
      | (None, w') => (None, w')
      end.
Proof.
  split; [done|]. split; [|split].
  - intros s' Hdeps. unfold Run, bind, r_UpdateDependencies.
    rewrite call_eq, Hdeps. simpl. unfold bind, log, ret. simpl.
    by rewrite <- app_assoc.
  - destruct (cycle_emits (selected wp)) as (calls & Htrace & Hcalls).
    exists calls. split; [done|]. split; [done|].
    intros Hin. rewrite Forall_forall in Hcalls. by apply Hcalls in Hin.
  - rewrite loop_Event. by destruct (cycle (selected wp)) as [[[|err]|] w'].
Qed.

End LoopProperties.

(** ** The order of the calls of the convergence phase *)

Section OrderProperties.
Context `{Snapshots} `{ResourceNames} `{YAMLDecoder}.
Context `{MapRange} {S : Type} `{!Runtime S}.

Lemma manifestsToDelete_spec manifests renderedManifests id :
  id ∈ manifestsToDelete manifests renderedManifests ↔
  id ∈ (ID ∘ Metadata_of) <$> manifests ∧ id ∉ names renderedManifests.
Proof.
  unfold manifestsToDelete.
  assert (Hfill : ∀ (X : gset string),
    id ∈ foldl (λ m manifest, {[ ID (Metadata_of manifest) ]} ∪ m) X manifests ↔
    id ∈ (ID ∘ Metadata_of) <$> manifests ∨ id ∈ X).
  { induction manifests as [|manifest rest IH]; intros X; simpl.
    - rewrite elem_of_nil. tauto.
    - rewrite IH, elem_of_cons, elem_of_union, elem_of_singleton. tauto. }
  assert (Hdrop : ∀ (X : gset string),
    id ∈ foldl (λ m renderedManifest, m ∖ {[ name renderedManifest ]}) X renderedManifests ↔
    id ∈ X ∧ id ∉ names renderedManifests).
  { unfold names. induction renderedManifests as [|rm rest IH]; intros X; simpl.
    - rewrite elem_of_nil. tauto.
    - rewrite IH, elem_of_cons, elem_of_difference, elem_of_singleton. tauto. }
  rewrite Hdrop, Hfill, elem_of_empty. tauto.
Qed.

Lemma range_eq (X : gset string) (w : World S) :
  range X w = (Some (rangeOrder (trace w) X), w).
Proof. done. Qed.

Lemma elem_of_rangeOrder calls (X : gset string) id :
  id ∈ rangeOrder calls X ↔ id ∈ X.
Proof. by rewrite (rangeOrder_perm calls X), elem_of_elements. Qed.

Lemma updateRendered_trace renderedManifests (w : World S) :
  match (updateRendered renderedManifests w).1 with
  | Some None =>
      trace (updateRendered renderedManifests w).2
      = trace w ++ (upsertCall <$> renderedManifests)
  | _ =>
      ∃ k, trace (updateRendered renderedManifests w).2
           = trace w ++ (upsertCall <$> take k renderedManifests)
  end.
Proof.
  revert w. induction renderedManifests as [|rm rest IH]; intros w; simpl.
  - by rewrite app_nil_r.
  - unfold bind, r_Update. rewrite call_eq.
    destruct (rt_Update _ _ (st w)) as [[[err|]|] s1]; simpl.
    + exists 1. reflexivity.
    + set (w1 := {| st := s1; trace := _ |}).
      specialize (IH w1). destruct (updateRendered rest w1) as [[[err|]|] w2]; simpl in *.
      * destruct IH as [k ->]. exists (Datatypes.S k). simpl. by rewrite <- app_assoc.
      * rewrite IH. simpl. by rewrite <- app_assoc.
      * destruct IH as [k ->]. exists (Datatypes.S k). simpl. by rewrite <- app_assoc.
    + exists 1. reflexivity.
Qed.

Lemma destroyIDs_trace ids (w : World S) :
  ∃ k, trace (destroyIDs ids w).2 = trace w ++ (destroyCall <$> take k ids).
Proof.
  revert w. induction ids as [|id rest IH]; intros w; simpl.
  - exists 0. by rewrite app_nil_r.
  - unfold bind, r_Destroy. rewrite call_eq.
    destruct (rt_Destroy _ (st w)) as [[[err|]|] s1]; simpl.
    + exists 1. reflexivity.
    + set (w1 := {| st := s1; trace := _ |}).
      destruct (IH w1) as [k Hk]. exists (Datatypes.S k).
      rewrite Hk. simpl. by rewrite <- app_assoc.
    + exists 1. reflexivity.
Qed.

(** The trace of the convergence phase: upserts only, when one of them
    fails; otherwise the upserts of the whole desired list, the listing, and
    deletions of ids that are not desired. *)
Lemma converge_trace renderedManifests (w : World S) :
  (∃ k, trace (converge renderedManifests w).2
        = trace w ++ (upsertCall <$> take k renderedManifests))
  ∨ (∃ w1 ids,
       updateRendered renderedManifests w = (Some None, w1)
       ∧ trace (converge renderedManifests w).2
         = trace w ++ (upsertCall <$> renderedManifests)
             ++ CallList manifestsMetadata :: (destroyCall <$> ids)
       ∧ ∀ id, id ∈ ids → id ∉ names renderedManifests).
Proof.
  unfold converge, bind, ret, r_List, range.
  pose proof (updateRendered_trace renderedManifests w) as Hup.
  destruct (updateRendered renderedManifests w) as [[[err|]|] w1]; simpl in *;
    [by left| |by left].
  rewrite call_eq.
  destruct (rt_List manifestsMetadata (st w1)) as [[[manifests|err]|] s2]; simpl.
  - set (w2 := {| st := s2; trace := _ |}).
    set (ids := rangeOrder (trace w1 ++ _) (manifestsToDelete manifests renderedManifests)).
    destruct (destroyIDs_trace ids w2) as [k Hk].
    right. exists w1, (take k ids). split; [done|]. split.
    + destruct (destroyIDs ids w2) as [[[err|]|] w3]; simpl in *;
        rewrite Hk; simpl; rewrite Hup; by rewrite <- !app_assoc.
    + intros id Hid. apply elem_of_take in Hid as (i & Hid & _).
      apply list_elem_of_lookup_2 in Hid. apply elem_of_rangeOrder in Hid.
      by apply manifestsToDelete_spec in Hid as [_ Hid].
  - right. exists w1, []. split; [done|].
    split; [|intros id Hid; by apply elem_of_nil in Hid].
    simpl. rewrite Hup. by rewrite <- !app_assoc.
  - right. exists w1, []. split; [done|].
    split; [|intros id Hid; by apply elem_of_nil in Hid].
    simpl. rewrite Hup. by rewrite <- !app_assoc.
Qed.

Lemma split_at_unique {A} (P : A → Prop) (l1 l2 k1 k2 : list A) (x y : A) :
  P x → Forall (λ a, ¬ P a) k1 → Forall (λ a, ¬ P a) k2 →
  l1 ++ x :: l2 = k1 ++ y :: k2 →
  l1 = k1 ∧ x = y ∧ l2 = k2.
Proof.
  intros HPx Hk1 Hk2. revert l1.
  induction k1 as [|a k1 IH]; intros l1 Heq.
  - destruct l1 as [|b l1]; simpl in Heq.
    + by inversion Heq.
    + inversion Heq; subst. exfalso.
      rewrite Forall_forall in Hk2. apply (Hk2 x); [|done].
      apply elem_of_app. right. by left.
  - apply Forall_cons in Hk1 as [Ha Hk1].
    destruct l1 as [|b l1]; simpl in Heq.
    + inversion Heq; subst. done.
    + inversion Heq; subst. destruct (IH Hk1 l1) as (-> & -> & ->); done.
Qed.

(** C4: the listing from which the delete set is computed is taken after
    all upserts have completed.  Wherever a listing occurs in the trace of
    the convergence phase, the calls before it are the upserts of the whole
    desired list, in order, all of which returned nil, and the calls after it
    are deletions of ids that are not names of the desired list; and whatever
    was listed, no name of the desired list is in the delete set. *)
Theorem listing_follows_upserts renderedManifests (w : World S) :
  (∀ before md after,
     trace (converge renderedManifests w).2 = trace w ++ before ++ CallList md :: after →
     before = upsertCall <$> renderedManifests
     ∧ (∃ w1, updateRendered renderedManifests w = (Some None, w1))
     ∧ ∃ ids, after = destroyCall <$> ids ∧ ∀ id, id ∈ ids → id ∉ names renderedManifests)
  ∧ (∀ manifests rm, rm ∈ renderedManifests →
       name rm ∉ manifestsToDelete manifests renderedManifests).
Proof.
  split.
  - intros before md after Htrace.
    destruct (converge_trace renderedManifests w) as [[k Hk]|(w1 & ids & Hup & Hconv & Hids)].
    + rewrite Hk in Htrace. apply app_inv_head in Htrace.
      assert (Hin : CallList md ∈ upsertCall <$> take k renderedManifests).
      { rewrite Htrace. apply elem_of_app. right. by left. }
      apply list_elem_of_fmap in Hin as (rm & Hrm & _). done.
    + rewrite Hconv in Htrace. apply app_inv_head in Htrace. symmetry in Htrace.
      apply (split_at_unique (λ c, ∃ md', c = CallList md')) in Htrace
        as (-> & _ & ->); [eauto 10|by eexists| |].
      * apply Forall_forall. intros c Hc [md' ->].
        apply list_elem_of_fmap in Hc as (rm & Hrm & _). done.
      * apply Forall_forall. intros c Hc [md' ->].
        apply list_elem_of_fmap in Hc as (id & Hid & _). done.
  - intros manifests rm Hrm Hin. apply manifestsToDelete_spec in Hin as [_ Hin].
    apply Hin. by apply list_elem_of_fmap_2.
Qed.

End OrderProperties.

(** ** Convergence and teardown on a runtime that keeps its contract *)

Section ConvergenceProperties.
Context `{Snapshots} `{Templates} `{!TemplateEngine} `{ResourceNames} `{YAMLDecoder}.
Context `{MapRange} {S : Type} `{!Runtime S}.
Context (managed : S → gmap string bytes) `{!RuntimeLaws managed}.

Lemma setYAML_payload yamlBytes old md yaml :
  setYAML yamlBytes old = Some (Ok (Manifest md yaml)) → yaml = yamlBytes.
Proof.
  unfold setYAML, SetYAML. destruct old as [| |md0 yaml0]; try done.
  destruct (yaml_decode_error yamlBytes); intros [=]; by subst.
Qed.

Lemma lookup_foldl_delete {A} (f : A → string) (l : list A) (m : gmap string bytes) k :
  foldl (λ m a, delete (f a) m) m l !! k = if decide (k ∈ f <$> l) then None else m !! k.
Proof.
  revert m. induction l as [|a l IH]; intros m; simpl.
  - destruct (decide (k ∈ [])) as [Hin|]; [by apply elem_of_nil in Hin|done].
  - rewrite IH. destruct (decide (k ∈ f <$> l)) as [Hin|Hnin].
    + rewrite decide_True; [done|]. by right.
    + destruct (decide (k = f a)) as [->|Hne].
      * rewrite decide_True; [|by left]. apply lookup_delete_eq.
      * rewrite decide_False; [by apply lookup_delete_ne|].
        intros Hin. by apply elem_of_cons in Hin as [?|?].
Qed.

Lemma lookup_foldl_delete_ids (ids : list string) (m : gmap string bytes) k :
  foldl (λ m i, delete i m) m ids !! k = if decide (k ∈ ids) then None else m !! k.
Proof.
  pose proof (lookup_foldl_delete (λ i : string, i) ids m k) as Hlookup.
  by rewrite list_fmap_id in Hlookup.
Qed.

Lemma lookup_foldl_upsert_other (renderedManifests : list renderedManifest)
    (m : gmap string bytes) k :
  k ∉ names renderedManifests →
  foldl (λ m rm, <[name rm := data rm]> m) m renderedManifests !! k = m !! k.
Proof.
  unfold names. revert m.
  induction renderedManifests as [|rm rest IH]; intros m Hk; simpl; [done|].
  rewrite fmap_cons, not_elem_of_cons in Hk. destruct Hk as [Hne Hk].
  rewrite IH by done. by apply lookup_insert_ne.
Qed.

Lemma lookup_foldl_upsert (renderedManifests : list renderedManifest)
    (m : gmap string bytes) rm :
  NoDup (names renderedManifests) → rm ∈ renderedManifests →
  foldl (λ m rm, <[name rm := data rm]> m) m renderedManifests !! name rm = Some (data rm).
Proof.
  revert m.
  induction renderedManifests as [|rm0 rest IH]; intros m Hnodup Hin; simpl.
  - by apply elem_of_nil in Hin.
  - unfold names in Hnodup. rewrite fmap_cons in Hnodup.
    apply NoDup_cons in Hnodup as [Hfresh Hnodup].
    apply elem_of_cons in Hin as [->|Hin].
    + rewrite lookup_foldl_upsert_other by done. apply lookup_insert_eq.
    + by apply IH.
Qed.

Lemma dom_foldl_upsert (renderedManifests : list renderedManifest) (m : gmap string bytes) :
  dom (foldl (λ m rm, <[name rm := data rm]> m) m renderedManifests)
  = dom m ∪ list_to_set (names renderedManifests).
Proof.
  unfold names. revert m. induction renderedManifests as [|rm rest IH]; intros m; simpl.
  - by rewrite union_empty_r_L.
  - rewrite IH, dom_insert_L.
    by rewrite (union_comm_L {[name rm]} (dom m)), (assoc_L (∪)).
Qed.

Lemma updateRendered_managed renderedManifests (w w' : World S) :
  updateRendered renderedManifests w = (Some None, w') →
  managed (st w')
  = foldl (λ m rm, <[name rm := data rm]> m) (managed (st w)) renderedManifests.
Proof.
  revert w. induction renderedManifests as [|rm rest IH]; intros w; simpl.
  - by intros [= <-].
  - unfold bind, r_Update. rewrite call_eq.
    destruct (rt_Update _ _ (st w)) as [[[err|]|] s1] eqn:Hupdate; simpl; try done.
    intros Hrest. apply IH in Hrest. rewrite Hrest. simpl. f_equal.
    apply law_Update in Hupdate as (old & md & yaml & Hmut & ->).
    by apply setYAML_payload in Hmut as ->.
Qed.

Lemma destroyIDs_managed ids (w w' : World S) :
  destroyIDs ids w = (Some None, w') →
  managed (st w') = foldl (λ m id, delete id m) (managed (st w)) ids.
Proof.
  revert w. induction ids as [|id rest IH]; intros w; simpl.
  - by intros [= <-].
  - unfold bind, r_Destroy. rewrite call_eq.
    destruct (rt_Destroy _ (st w)) as [[[err|]|] s1] eqn:Hdestroy; simpl; try done.
    intros Hrest. apply IH in Hrest. rewrite Hrest. simpl. f_equal.
    by apply law_Destroy in Hdestroy.
Qed.

Lemma destroyListed_managed manifests (w w' : World S) :
  Forall (λ r, Namespace (Metadata_of r) = k8s_ControlPlaneNamespaceName
               ∧ Type_ (Metadata_of r) = k8s_ManifestType) manifests →
  destroyListed manifests w = (Some None, w') →
  managed (st w')
  = foldl (λ m r, delete (ID (Metadata_of r)) m) (managed (st w)) manifests.
Proof.
  revert w. induction manifests as [|manifest rest IH]; intros w Hmanaged; simpl.
  - by intros [= <-].
  - apply Forall_cons in Hmanaged as [[Hns Htyp] Hmanaged].
    unfold bind, r_Destroy. rewrite call_eq.
    destruct (rt_Destroy _ (st w)) as [[[err|]|] s1] eqn:Hdestroy; simpl; try done.
    intros Hrest. apply IH in Hrest; [|done]. rewrite Hrest. simpl. f_equal.
    by apply law_Destroy in Hdestroy.
Qed.

(** A successful convergence phase, for any desired list: the identities
    left are the desired names, each with the payload that the upserts gave
    it. *)
Lemma converge_managed renderedManifests (w w' : World S) :
  converge renderedManifests w = (Some Continue, w') →
  dom (managed (st w')) = list_to_set (names renderedManifests)
  ∧ ∀ k, k ∈ names renderedManifests →
      managed (st w') !! k
      = foldl (λ m rm, <[name rm := data rm]> m) (managed (st w)) renderedManifests !! k.
Proof.
  unfold converge, bind, ret, r_List, range.
  destruct (updateRendered renderedManifests w) as [[[err|]|] w1] eqn:Hupdate;
    simpl; try done.
  apply updateRendered_managed in Hupdate. rewrite call_eq.
  destruct (rt_List manifestsMetadata (st w1)) as [[[manifests|err]|] s2] eqn:Hlist;
    simpl; try done.
  apply law_List in Hlist as (Hsame & Hids & _).
  set (w2 := {| st := s2; trace := _ |}).
  set (ids := rangeOrder _ (manifestsToDelete manifests renderedManifests)).
  destruct (destroyIDs ids w2) as [[[err|]|] w3] eqn:Hdestroy; simpl; try done.
  intros [= <-]. apply destroyIDs_managed in Hdestroy. simpl in Hdestroy.
  rewrite Hsame, Hupdate in Hdestroy.
  set (m1 := foldl _ (managed (st w)) renderedManifests) in *.
  assert (Hlookup : ∀ k, managed (st w3) !! k
                         = if decide (k ∈ names renderedManifests) then m1 !! k else None).
  { intros k. rewrite Hdestroy, lookup_foldl_delete_ids.
    destruct (decide (k ∈ ids)) as [Hin|Hnin].
    - apply elem_of_rangeOrder, manifestsToDelete_spec in Hin as [_ Hin].
      by rewrite decide_False.
    - destruct (decide (k ∈ names renderedManifests)) as [|Hundesired]; [done|].
      destruct (m1 !! k) as [yaml|] eqn:Hk; [|done]. exfalso. apply Hnin.
      apply elem_of_rangeOrder, manifestsToDelete_spec. split; [|done].
      apply Hids. rewrite Hupdate. fold m1. apply elem_of_dom. by eexists. }
  split.
  - apply set_eq. intros k. rewrite elem_of_dom, Hlookup, elem_of_list_to_set.
    destruct (decide (k ∈ names renderedManifests)) as [Hin|Hnin].
    + split; [done|]. intros _. apply elem_of_dom. unfold m1.
      rewrite dom_foldl_upsert. apply elem_of_union. right.
      by apply elem_of_list_to_set.
    + split; [|done]. by intros [? ?].
  - intros k Hk. by rewrite Hlookup, decide_True.
Qed.

(** C1: convergence correctness.  For a desired list produced by the
    renderer and any prior state of the managed namespace, after a successful
    convergence phase the identities of the managed namespace are exactly the
    names of the desired list, and the payload stored under each name is the
    payload the desired list has for it. *)
Theorem convergence_correct cfg scrt renderedManifests (w w' : World S) :
  render cfg scrt = Ok renderedManifests →
  converge renderedManifests w = (Some Continue, w') →
  dom (managed (st w')) = list_to_set (names renderedManifests)
  ∧ ∀ rm, rm ∈ renderedManifests → managed (st w') !! name rm = Some (data rm).
Proof.
  intros Hrender Hconverge.
  apply converge_managed in Hconverge as [Hdom Hlookup]. split; [done|].
  intros rm Hrm. rewrite Hlookup by (by apply list_elem_of_fmap_2).
  apply lookup_foldl_upsert; [|done].
  rewrite (render_names _ _ _ Hrender). apply manifestNames_NoDup.
Qed.

End ConvergenceProperties.

(** ** Teardown *)

Section TeardownErrors.
Context `{Snapshots} `{ResourceNames} {S : Type} `{!Runtime S}.

Lemma destroyListed_app before rest (w w1 : World S) :
  destroyListed before w = (Some None, w1) →
  destroyListed (before ++ rest) w = destroyListed rest w1.
Proof.
  revert w. induction before as [|manifest before IH]; intros w; simpl.
  - by intros [= <-].
  - unfold bind. destruct (r_Destroy (Metadata_of manifest) w) as [[[err|]|] w0]; try done.
    apply IH.
Qed.

(** C2, as the code has it: teardown tolerates no error of [Destroy].  When
    the listing succeeded and the deletion of one of the listed manifests
    fails, with whatever error, a not-found error included, [teardownAll]
    stops there and returns that error, wrapped; the loop then returns it as
    an error of tearing down. *)
Theorem teardown_propagates_destroy_errors
    before manifest after err (w w0 w1 w2 : World S) :
  r_List manifestsMetadata w = (Some (Ok (before ++ manifest :: after)), w0) →
  destroyListed before w0 = (Some None, w1) →
  r_Destroy (Metadata_of manifest) w1 = (Some (Some err), w2) →
  teardownAll w = (Some (Some (Errorf "error destroying manifest" err)), w2)
  ∧ teardown w
    = (Some (Return (Some (Errorf "error tearing down"
                             (Errorf "error destroying manifest" err)))), w2).
Proof.
  intros Hlist Hbefore Hdestroy.
  assert (Hall : teardownAll w
                 = (Some (Some (Errorf "error destroying manifest" err)), w2)).
  { unfold teardownAll, bind. rewrite Hlist.
    rewrite (destroyListed_app _ _ _ _ Hbefore). simpl. unfold bind.
    by rewrite Hdestroy. }
  split; [done|]. unfold teardown, bind. by rewrite Hall.
Qed.

End TeardownErrors.

Section TeardownProperties.
Context `{Snapshots} `{Templates} `{!TemplateEngine} `{ResourceNames} `{YAMLDecoder}.
Context `{MapRange} {S : Type} `{!Runtime S}.
Context (managed : S → gmap string bytes) `{!RuntimeLaws managed}.

Lemma teardownAll_empties (w w' : World S) :
  teardownAll w = (Some None, w') → managed (st w') = ∅.
Proof.
  unfold teardownAll, bind, r_List. rewrite call_eq.
  destruct (rt_List manifestsMetadata (st w)) as [[[manifests|err]|] s1] eqn:Hlist;
    simpl; try done.
  apply law_List in Hlist as (Hsame & Hids & Hmanaged).
  intros Hdestroy. apply (destroyListed_managed managed) in Hdestroy; [|done].
  simpl in Hdestroy. apply map_eq. intros k.
  rewrite Hdestroy, lookup_foldl_delete, lookup_empty, Hsame.
  destruct (decide _) as [Hin|Hnin]; [done|].
  apply not_elem_of_dom. intros Hdom. apply Hnin. by apply Hids.
Qed.

Lemma teardownAll_empty (w : World S) :
  managed (st w) = ∅ →
  trace (teardownAll w).2 = trace w ++ [CallList manifestsMetadata]
  ∧ ∀ manifests s', rt_List manifestsMetadata (st w) = (Some (Ok manifests), s') →
      teardownAll w
      = (Some None, {| st := s'; trace := trace w ++ [CallList manifestsMetadata] |})
      ∧ managed s' = ∅.
Proof.
  intros Hempty. unfold teardownAll, bind, r_List. rewrite call_eq.
  destruct (rt_List manifestsMetadata (st w)) as [[[manifests|err]|] s1] eqn:Hlist;
    simpl; try (split; [done|]; by intros ? ? [=]).
  apply law_List in Hlist as (Hsame & Hids & _).
  assert (manifests = []) as ->.
  { destruct manifests as [|manifest rest]; [done|]. exfalso.
    rewrite Hempty, dom_empty_L in Hids.
    apply (not_elem_of_empty (C:=gset string) (ID (Metadata_of manifest))), Hids.
    by left. }
  split; [done|]. intros manifests s' [= <- <-]. split; [done|]. by rewrite Hsame.
Qed.

(** C5: teardown totality and idempotence.  From any prior state of the
    managed namespace, the empty one included, a successful teardown leaves
    the managed namespace empty; a second successful teardown leaves the same
    empty namespace and makes no call but the listing; and on an empty
    namespace teardown never calls [Destroy] and returns nil whenever its
    listing succeeds. *)
Theorem teardown_idempotent (w : World S) :
  (∀ w', teardownAll w = (Some None, w') → managed (st w') = ∅)
  ∧ (∀ w1 w2, teardownAll w = (Some None, w1) → teardownAll w1 = (Some None, w2) →
       managed (st w2) = managed (st w1)
       ∧ managed (st w2) = ∅
       ∧ trace w2 = trace w1 ++ [CallList manifestsMetadata])
  ∧ (managed (st w) = ∅ →
       trace (teardownAll w).2 = trace w ++ [CallList manifestsMetadata]
       ∧ ∀ manifests s', rt_List manifestsMetadata (st w) = (Some (Ok manifests), s') →
           teardownAll w
           = (Some None, {| st := s'; trace := trace w ++ [CallList manifestsMetadata] |})
           ∧ managed s' = ∅).
Proof.
  split; [apply teardownAll_empties|]. split; [|apply teardownAll_empty].
  intros w1 w2 Hfirst Hsecond.
  apply teardownAll_empties in Hfirst.
  pose proof (teardownAll_empties _ _ Hsecond) as Hempty.
  split; [by rewrite Hfirst, Hempty|]. split; [done|].
  destruct (teardownAll_empty w1 Hfirst) as [Htrace _].
  by rewrite Hsecond in Htrace.
Qed.

(** C3, as the code has it: when the read of the configuration input, or
    after it the read of the secret input, returns a not-found error, the
    cycle tears down.  When the teardown succeeds, the managed namespace ends
    empty, the cycle returns no error and the loop goes back to the
    [select]; when the teardown fails, [Run] returns its error, wrapped as an
    error of tearing down. *)
Theorem absent_input_tears_down rest err (wp w1 : World S) :
  (r_Get configMetadata (selected wp) = (Some (Err err), w1)
   ∨ ∃ configResource config w0,
       r_Get configMetadata (selected wp) = (Some (Ok configResource), w0)
       ∧ Manifests configResource w0 = (Some config, w0)
       ∧ r_Get secretsMetadata w0 = (Some (Err err), w1)) →
  IsNotFoundError err = true →
  cycle (selected wp) = teardown w1
  ∧ (∀ w', teardownAll w1 = (Some None, w') →
       managed (st w') = ∅
       ∧ cycle (selected wp) = (Some Continue, w')
       ∧ loop (Event :: rest) wp = loop rest w'
       ∧ loop [Event] wp = (Some Waiting, selected w'))
  ∧ (∀ e w', teardownAll w1 = (Some (Some e), w') →
       loop (Event :: rest) wp
       = (Some (Returned (Some (Errorf "error tearing down" e))), w')).
Proof.
  intros Hread Hnotfound.
  assert (Hcycle : cycle (selected wp) = teardown w1).
  { unfold cycle. unfold bind at 1.
    destruct Hread as [Hget|(configResource & config & w0 & Hget & Hconfig & Hget')].
    - by rewrite Hget, Hnotfound.
    - rewrite Hget. unfold bind at 1. rewrite Hconfig. unfold bind at 1.
      by rewrite Hget', Hnotfound. }
  split; [done|]. split.
  - intros w' Hteardown.
    assert (Hflow : cycle (selected wp) = (Some Continue, w')).
    { rewrite Hcycle. unfold teardown, bind. by rewrite Hteardown. }
    split; [by apply teardownAll_empties in Hteardown|]. split; [done|].
    rewrite !loop_Event, Hflow. done.
  - intros e w' Hteardown. rewrite loop_Event, Hcycle.
    unfold teardown, bind. by rewrite Hteardown.
Qed.

End TeardownProperties.

(** ** The in-memory runtime keeps the contract *)

Section InMemoryProperties.
Context `{Snapshots} `{ResourceNames}.

Lemma is_managed_true (md : Metadata) :
  Namespace md = k8s_ControlPlaneNamespaceName → Type_ md = k8s_ManifestType →
  is_managed md = true.
Proof. intros Hns Htyp. unfold is_managed. by rewrite bool_decide_eq_true. Qed.

Lemma mem_fault_manifests (s : MemState) :
  mem_manifests (mem_fault s).2 = mem_manifests s.
Proof. unfold mem_fault. by destruct (mem_faults s). Qed.

#[export] Instance mem_RuntimeLaws : RuntimeLaws (Runtime0 := mem_Runtime) mem_manifests.
Proof.
  split.
  - intros s manifests s'. simpl. unfold mem_List.
    pose proof (mem_fault_manifests s) as Hfault.
    destruct (mem_fault s) as [[err|] s0]; simpl in *; [done|].
    rewrite is_managed_true by done. intros [= <- <-]. simpl.
    split; [done|]. split.
    + intros id. rewrite <- list_fmap_compose, list_elem_of_fmap, elem_of_dom, Hfault.
      split.
      * intros ([id' yaml] & -> & Hin). apply elem_of_map_to_list in Hin. by exists yaml.
      * intros [yaml Hyaml]. exists (id, yaml). split; [done|].
        by apply elem_of_map_to_list.
    + apply Forall_fmap, Forall_forall. by intros [id yaml] _.
  - intros id f s s'. simpl. unfold mem_Update.
    pose proof (mem_fault_manifests s) as Hfault.
    destruct (mem_fault s) as [[err|] s0]; simpl in *; [done|].
    rewrite is_managed_true by done.
    match goal with |- context [f ?r] => set (old := r) end.
    destruct (f old) as [[[| |md yaml]|err]|] eqn:Hmut; try done.
    intros [= <-]. exists old, md, yaml. split; [done|]. simpl. by rewrite Hfault.
  - intros md s s' Hns Htyp. simpl. unfold mem_Destroy.
    pose proof (mem_fault_manifests s) as Hfault.
    destruct (mem_fault s) as [[err|] s0]; simpl in *; [done|].
    rewrite is_managed_true by done.
    destruct (mem_manifests s0 !! ID md); [|done].
    intros [= <-]. simpl. by rewrite Hfault.
Qed.

End InMemoryProperties.

(** ** The errors of the loop *)

Section ErrorProperties.
Context `{Snapshots} `{Templates} `{!TemplateEngine} `{ResourceNames} `{YAMLDecoder}.
Context `{MapRange} {S : Type} `{!Runtime S}.

Lemma updateRendered_error renderedManifests (w w' : World S) e :
  updateRendered renderedManifests w = (Some (Some e), w') →
  ∃ e', e = Errorf "error updating manifests" e'.
Proof.
  revert w. induction renderedManifests as [|rm rest IH]; intros w; simpl; [done|].
  unfold bind. destruct (r_Update _ _ w) as [[[err|]|] w1]; try done.
  - intros [= <- <-]. by eexists.
  - apply IH.
Qed.

Lemma destroyIDs_error ids (w w' : World S) e :
  destroyIDs ids w = (Some (Some e), w') →
  ∃ e', e = Errorf "error cleaning up manifests" e'.
Proof.
  revert w. induction ids as [|id rest IH]; intros w; simpl; [done|].
  unfold bind. destruct (r_Destroy _ w) as [[[err|]|] w1]; try done.
  - intros [= <- <-]. by eexists.
  - apply IH.
Qed.

Lemma destroyListed_error manifests (w w' : World S) e :
  destroyListed manifests w = (Some (Some e), w') →
  ∃ e', e = Errorf "error destroying manifest" e'.
Proof.
  revert w. induction manifests as [|manifest rest IH]; intros w; simpl; [done|].
  unfold bind. destruct (r_Destroy _ w) as [[[err|]|] w1]; try done.
  - intros [= <- <-]. by eexists.
  - apply IH.
Qed.

Lemma teardownAll_error (w w' : World S) e :
  teardownAll w = (Some (Some e), w') →
  ∃ e', e = Errorf "error listing manifests" e' ∨ e = Errorf "error destroying manifest" e'.
Proof.
  unfold teardownAll, bind.
  destruct (r_List manifestsMetadata w) as [[[manifests|err]|] w1]; try done.
  - intros Hdestroy. apply destroyListed_error in Hdestroy as [e' ->]. eauto.
  - intros [= <- <-]. eauto.
Qed.

Lemma teardown_Return (w w' : World S) oe :
  teardown w = (Some (Return oe), w') →
  ∃ e', oe = Some (Errorf "error tearing down" (Errorf "error listing manifests" e'))
        ∨ oe = Some (Errorf "error tearing down" (Errorf "error destroying manifest" e')).
Proof.
  unfold teardown, bind.
  destruct (teardownAll w) as [[[err|]|] w1] eqn:Hteardown; try done.
  intros [= <- <-]. apply teardownAll_error in Hteardown as [e' [-> | ->]]; eauto.
Qed.

Lemma converge_Return renderedManifests (w w' : World S) oe :
  converge renderedManifests w = (Some (Return oe), w') →
  ∃ e', oe = Some (Errorf "error updating manifests" e')
        ∨ oe = Some (Errorf "error listing manifests" e')
        ∨ oe = Some (Errorf "error cleaning up manifests" e').
Proof.
  unfold converge, bind.
  destruct (updateRendered renderedManifests w) as [[[err|]|] w1] eqn:Hupdate; try done.
  { intros [= <- <-]. apply updateRendered_error in Hupdate as [e' ->]. eauto. }
  destruct (r_List manifestsMetadata w1) as [[[manifests|err]|] w2]; try done.
  - destruct (range _ w2) as [[ids|] w3]; try done.
    destruct (destroyIDs ids w3) as [[[err|]|] w4] eqn:Hdestroy; try done.
    intros [= <- <-]. apply destroyIDs_error in Hdestroy as [e' ->]. eauto.
  - intros [= <- <-]. eauto.
Qed.

(** What a cycle of the loop is made of: the first read; on success the
    type assertion and the second read; on success of both the rendering and
    the convergence phase. *)
Lemma cycle_eq (w : World S) :
  cycle w =
    match r_Get configMetadata w with
    | (Some (Err err), w0) =>
        if IsNotFoundError err then teardown w0 else (Some (Return (Some err)), w0)
    | (Some (Ok configResource), w0) =>
        match Manifests configResource w0 with
        | (Some config, w1) =>
            match r_Get secretsMetadata w1 with
            | (Some (Err err), w2) =>
                if IsNotFoundError err then teardown w2 else (Some (Return (Some err)), w2)
            | (Some (Ok secretsResources), w2) =>
                match Secrets_of secretsResources w2 with
                | (Some secrets, w3) =>
                    match render config secrets with
                    | Err err => (Some (Return (Some err)), w3)
                    | Ok renderedManifests => converge renderedManifests w3
                    end
                | (None, w3) => (None, w3)
                end
            | (None, w2) => (None, w2)
            end
        | (None, w1) => (None, w1)
        end
    | (None, w0) => (None, w0)
    end.
Proof.
  unfold cycle. unfold bind at 1.
  destruct (r_Get configMetadata w) as [[[configResource|err]|] w0];
    [|by destruct (IsNotFoundError err)|done].
  unfold bind at 1. destruct (Manifests configResource w0) as [[config|] w1]; [|done].
  unfold bind at 1.
  destruct (r_Get secretsMetadata w1) as [[[secretsResources|err]|] w2];
    [|by destruct (IsNotFoundError err)|done].
  unfold bind at 1.
  destruct (Secrets_of secretsResources w2) as [[secrets|] w3]; [|done].
  by destruct (render config secrets).
Qed.

Lemma Manifests_world configResource config (w w' : World S) :
  Manifests configResource w = (Some config, w') → w' = w.
Proof. destruct configResource; simpl; unfold ret, panic; congruence. Qed.

Lemma Secrets_of_world secretsResources secrets (w w' : World S) :
  Secrets_of secretsResources w = (Some secrets, w') → w' = w.
Proof. destruct secretsResources; simpl; unfold ret, panic; congruence. Qed.

Lemma cycle_Return_Some (w w' : World S) oe :
  cycle w = (Some (Return oe), w') → is_Some oe.
Proof.
  rewrite cycle_eq.
  destruct (r_Get configMetadata w) as [[[configResource|err]|] w0]; [| |done].
  - destruct (Manifests configResource w0) as [[config|] w1]; [|done].
    destruct (r_Get secretsMetadata w1) as [[[secretsResources|err]|] w2]; [| |done].
    + destruct (Secrets_of secretsResources w2) as [[secrets|] w3]; [|done].
      destruct (render config secrets) as [renderedManifests|err].
      * intros Hconverge. apply converge_Return in Hconverge as [e' [->|[->| ->]]]; eauto.
      * intros [= <- <-]. eauto.
    + destruct (IsNotFoundError err).
      * intros Hteardown. apply teardown_Return in Hteardown as [e' [-> | ->]]; eauto.
      * intros [= <- <-]. eauto.
  - destruct (IsNotFoundError err).
    + intros Hteardown. apply teardown_Return in Hteardown as [e' [-> | ->]]; eauto.
    + intros [= <- <-]. eauto.
Qed.

(** X1: the errors with which a cycle makes [Run] return.  A cycle never
    returns nil.  The error it returns is the error of a read of one of the
    two inputs that is not a not-found error, handed on as it is with nothing
    done after the read; or the error of the renderer, handed on as it is;
    or an error of the store wrapped under the name of the step that failed:
    tearing down (listing or destroying), updating, listing, cleaning up. *)
Theorem cycle_error_taxonomy (w w' : World S) oe :
  cycle w = (Some (Return oe), w') →
  ∃ e, oe = Some e
    ∧ ((∃ md w0, (md = configMetadata ∨ md = secretsMetadata)
                 ∧ r_Get md w0 = (Some (Err e), w') ∧ IsNotFoundError e = false)
       ∨ (∃ cfg scrt, render cfg scrt = Err e)
       ∨ (∃ e', e = Errorf "error tearing down" (Errorf "error listing manifests" e'))
       ∨ (∃ e', e = Errorf "error tearing down" (Errorf "error destroying manifest" e'))
       ∨ (∃ e', e = Errorf "error updating manifests" e')
       ∨ (∃ e', e = Errorf "error listing manifests" e')
       ∨ (∃ e', e = Errorf "error cleaning up manifests" e')).
Proof.
  rewrite cycle_eq.
  destruct (r_Get configMetadata w) as [[[configResource|err]|] w0] eqn:Hconfig;
    [| |done].
  - destruct (Manifests configResource w0) as [[config|] w1] eqn:Hassert; [|done].
    apply Manifests_world in Hassert as ->.
    destruct (r_Get secretsMetadata w0) as [[[secretsResources|err]|] w2] eqn:Hsecrets;
      [| |done].
    + destruct (Secrets_of secretsResources w2) as [[secrets|] w3]; [|done].
      destruct (render config secrets) as [renderedManifests|err] eqn:Hrender.
      * intros Hconverge.
        apply converge_Return in Hconverge as [e' [->|[->| ->]]];
          eexists; (split; [done|]); eauto 10.
      * intros [= <- <-]. eexists. split; [done|]. eauto 10.
    + destruct (IsNotFoundError err) eqn:Hnotfound.
      * intros Hteardown. apply teardown_Return in Hteardown as [e' [-> | ->]];
          eexists; (split; [done|]); eauto 10.
      * intros [= <- <-]. eexists. split; [done|]. left. eauto 10.
  - destruct (IsNotFoundError err) eqn:Hnotfound.
    + intros Hteardown. apply teardown_Return in Hteardown as [e' [-> | ->]];
        eexists; (split; [done|]); eauto 10.
    + intros [= <- <-]. eexists. split; [done|]. left. eauto 10.
Qed.

Lemma loop_Returned_nil signals (w w' : World S) :
  loop signals w = (Some (Returned None), w') ↔
  ∃ events rest w_end,
    signals = events ++ Done :: rest
    ∧ Forall (λ s, s = Event) events
    ∧ cycles_continue events w w_end
    ∧ w' = selected w_end.
Proof.
  split.
  - revert w. induction signals as [|[|] rest IH]; intros w.
    + done.
    + intros [= <-]. by exists [], rest, w.
    + rewrite loop_Event.
      destruct (cycle (selected w)) as [[[|oe]|] w1] eqn:Hcycle; [| |done].
      * intros Hrest. apply IH in Hrest as (events & rest' & w_end & -> & Hevents & Hrun & ->).
        exists (Event :: events), rest', w_end. split; [done|].
        split; [by constructor|]. split; [|done]. simpl. by exists w1.
      * intros [= -> <-]. apply cycle_Return_Some in Hcycle. by destruct Hcycle.
  - intros (events & rest & w_end & -> & Hevents & Hrun & ->).
    revert w Hrun. induction events as [|signal events IH]; intros w Hrun; simpl in *.
    + by subst.
    + apply Forall_cons in Hevents as [-> Hevents].
      destruct Hrun as (w1 & Hcycle & Hrun).
      change (loop (Event :: events ++ Done :: rest) w = (Some (Returned None), selected w_end)).
      rewrite loop_Event, Hcycle. by apply IH.
Qed.

(** X2: [Run] returns nil only on cancellation.  [Run] returns nil exactly
    when the dependencies were accepted, the [select] took the cancellation
    case, every signal before it was a wake-up, and each of the cycles these
    wake-ups started ended with [continue], that is without error; the world
    it returns from is the one the last of these cycles left, with the
    [select] entered once more. *)
Theorem Run_nil_only_on_cancellation signals (w w' : World S) :
  Run signals w = (Some (Returned None), w') ↔
  ∃ events rest s0 w_end,
    signals = events ++ Done :: rest
    ∧ Forall (λ s, s = Event) events
    ∧ rt_UpdateDependencies dependencies (st w) = (Some None, s0)
    ∧ cycles_continue events
        {| st := s0; trace := trace w ++ [CallUpdateDependencies dependencies] |} w_end
    ∧ w' = selected w_end.
Proof.
  unfold Run, bind, r_UpdateDependencies. rewrite call_eq.
  destruct (rt_UpdateDependencies dependencies (st w)) as [[[err|]|] s1]; simpl.
  - split; [done|]. by intros (events & rest & s0 & w_end & _ & _ & [=] & _).
  - rewrite loop_Returned_nil. split.
    + intros (events & rest & w_end & -> & Hevents & Hrun & ->).
      by exists events, rest, s1, w_end.
    + intros (events & rest & s0 & w_end & -> & Hevents & [= <-] & Hrun & ->).
      by exists events, rest, w_end.
  - split; [done|]. by intros (events & rest & s0 & w_end & _ & _ & [=] & _).
Qed.

End ErrorProperties.

(** ** What the controller reads and writes *)

Section DisciplineProperties.
Context `{Snapshots} `{Templates} `{!TemplateEngine} `{ResourceNames} `{YAMLDecoder}.
Context `{MapRange} {S : Type} `{!Runtime S}.

Lemma emits_at_bind {A B} (P : Call → Prop) (m : M S A) (k : A → M S B) (w : World S) :
  emits_at P m w →
  (∀ a w1, m w = (Some a, w1) → emits_at P (k a) w1) →
  emits_at P (a <- m ;; k a) w.
Proof.
  intros (calls1 & Htrace1 & HP1) Hk. unfold emits_at, bind.
  destruct (m w) as [[a|] w1]; simpl in *.
  - destruct (Hk a w1 eq_refl) as (calls2 & Htrace2 & HP2).
    exists (calls1 ++ calls2). rewrite Htrace2, Htrace1, app_assoc.
    split; [done|]. by apply Forall_app.
  - by exists calls1.
Qed.

Lemma destroyListed_emits_if (P : Call → Prop) manifests :
  Forall (λ r, P (CallDestroy (Metadata_of r))) manifests →
  emits P (destroyListed manifests).
Proof.
  induction manifests as [|manifest rest IH]; intros HP; simpl.
  - apply emits_ret.
  - apply Forall_cons in HP as [HP HPrest].
    apply emits_bind; [by apply emits_call|].
    intros [err|]; [apply emits_ret|by apply IH].
Qed.

Lemma updateRendered_emits_if (P : Call → Prop) renderedManifests :
  Forall (λ rm, P (upsertCall rm)) renderedManifests →
  emits P (updateRendered renderedManifests).
Proof.
  induction renderedManifests as [|rm rest IH]; intros HP; simpl.
  - apply emits_ret.
  - apply Forall_cons in HP as [HP HPrest].
    apply emits_bind; [by apply emits_call|].
    intros [err|]; [apply emits_ret|by apply IH].
Qed.

Lemma destroyIDs_emits_if (P : Call → Prop) ids :
  (∀ id, P (destroyCall id)) → emits P (destroyIDs ids).
Proof.
  intros HP. induction ids as [|id rest IH]; simpl.
  - apply emits_ret.
  - apply emits_bind; [apply emits_call, HP|].
    intros [err|]; [apply emits_ret|done].
Qed.

Lemma converge_emits_if (P : Call → Prop) renderedManifests :
  Forall (λ rm, P (upsertCall rm)) renderedManifests →
  P (CallList manifestsMetadata) →
  (∀ id, P (destroyCall id)) →
  emits P (converge renderedManifests).
Proof.
  intros Hupsert Hlist Hdestroy.
  apply emits_bind; [by apply updateRendered_emits_if|].
  intros [err|]; [apply emits_ret|].
  apply emits_bind; [by apply emits_call|].
  intros [manifests|err]; [|apply emits_ret].
  apply emits_bind; [apply emits_range|]. intros ids.
  apply emits_bind; [by apply destroyIDs_emits_if|].
  intros [err|]; apply emits_ret.
Qed.

Lemma teardown_emits_at (P : Call → Prop) (w : World S) :
  P (CallList manifestsMetadata) →
  (∀ manifests s', rt_List manifestsMetadata (st w) = (Some (Ok manifests), s') →
     Forall (λ r, P (CallDestroy (Metadata_of r))) manifests) →
  emits_at P teardown w.
Proof.
  intros Hlist Hlisted. apply emits_at_bind; [|intros [err|] w1 _; apply emits_ret].
  apply emits_at_bind; [by apply emits_call|].
  intros [manifests|err] w1 Hcall; [|apply emits_ret].
  apply destroyListed_emits_if. unfold r_List in Hcall. rewrite call_eq in Hcall.
  destruct (rt_List manifestsMetadata (st w)) as [r s1] eqn:Hrt.
  simpl in Hcall. injection Hcall as -> _. by eapply Hlisted.
Qed.

(** The calls of a cycle satisfy [P] when the reads of the two inputs, the
    listing, the upserts of the manifests a configuration selects and the
    deletions of the convergence phase do, and the deletions of what a
    listing returned do as well. *)
Lemma cycle_emits_at (P : Call → Prop) (w : World S) :
  P (CallGet configMetadata) → P (CallGet secretsMetadata) →
  P (CallList manifestsMetadata) →
  (∀ cfg n, n ∈ manifestNames cfg → P (CallUpdate (manifestMetadata n))) →
  (∀ id, P (destroyCall id)) →
  (∀ s manifests s', rt_List manifestsMetadata s = (Some (Ok manifests), s') →
     Forall (λ r, P (CallDestroy (Metadata_of r))) manifests) →
  emits_at P cycle w.
Proof.
  intros Hconfig Hsecrets Hlist Hupsert Hdestroy Hlisted.
  apply emits_at_bind; [by apply emits_call|].
  intros [configResource|err] w0 _.
  2: { destruct (IsNotFoundError err); [|apply emits_ret].
       apply teardown_emits_at; [done|]. intros manifests s'. apply Hlisted. }
  apply emits_at_bind.
  { destruct configResource; first [apply emits_ret|apply emits_panic]. }
  intros config w1 _. apply emits_at_bind; [by apply emits_call|].
  intros [secretsResources|err] w2 _.
  2: { destruct (IsNotFoundError err); [|apply emits_ret].
       apply teardown_emits_at; [done|]. intros manifests s'. apply Hlisted. }
  apply emits_at_bind.
  { destruct secretsResources; first [apply emits_ret|apply emits_panic]. }
  intros secrets w3 _.
  destruct (render config secrets) as [renderedManifests|err] eqn:Hrender;
    [|apply emits_ret].
  apply converge_emits_if; [|done..].
  apply Forall_forall. intros rm Hrm. apply (Hupsert config).
  rewrite <- (render_names _ _ _ Hrender). by apply list_elem_of_fmap_2.
Qed.

Lemma loop_emits_at (P : Call → Prop) signals (w : World S) :
  P CallSelect →
  (∀ w', emits_at P cycle w') →
  emits_at P (loop signals) w.
Proof.
  intros Hselect Hcycle. revert w. induction signals as [|[|] rest IH]; intros w; simpl.
  - apply emits_at_bind; [by apply emits_log|]. intros _ w1 _. apply emits_ret.
  - apply emits_at_bind; [by apply emits_log|]. intros _ w1 _. apply emits_ret.
  - apply emits_at_bind; [by apply emits_log|]. intros _ w1 _.
    apply emits_at_bind; [apply Hcycle|].
    intros [|err] w2 _; [apply IH|apply emits_ret].
Qed.

Lemma Run_emits_at (P : Call → Prop) signals (w : World S) :
  P (CallUpdateDependencies dependencies) →
  P CallSelect →
  (∀ w', emits_at P cycle w') →
  emits_at P (Run signals) w.
Proof.
  intros Hdeps Hselect Hcycle.
  apply emits_at_bind; [by apply emits_call|].
  intros [err|] w1 _; [apply emits_ret|by apply loop_emits_at].
Qed.

Lemma is_dependency_config : is_dependency configMetadata.
Proof.
  eexists. split; [by left|]. done.
Qed.

Lemma is_dependency_secrets : is_dependency secretsMetadata.
Proof.
  eexists. split; [right; by left|]. done.
Qed.

(** X3: the controller reads what it declared and upserts what it
    rendered.  Whatever the runtime answers, every [Get] that [Run] makes
    is a read of one of the declared dependencies, every [List] is the
    listing of the managed resources (empty id, undefined version), and
    every [Update] creates or updates, in the namespace and type that
    [ManagedResources] declares, a manifest whose id is one of the names that
    the renderer selects for some configuration. *)
Theorem Run_reads_declared_writes_rendered signals (w : World S) :
  ∃ calls, trace (Run signals w).2 = trace w ++ calls
    ∧ (∀ md, CallGet md ∈ calls → is_dependency md)
    ∧ (∀ md, CallList md ∈ calls →
         in_ManagedResources md ∧ ID md = "" ∧ Version_ md = VersionUndefined)
    ∧ (∀ md, CallUpdate md ∈ calls →
         in_ManagedResources md ∧ ∃ cfg, ID md ∈ manifestNames cfg).
Proof.
  set (P := λ c, match c with
                 | CallGet md => is_dependency md
                 | CallList md => md = manifestsMetadata
                 | CallUpdate md => ∃ cfg n, n ∈ manifestNames cfg ∧ md = manifestMetadata n
                 | _ => True
                 end).
  assert (Hrun : emits_at P (Run signals) w).
  { apply Run_emits_at; [done|done|]. intros w'. apply cycle_emits_at.
    - apply is_dependency_config.
    - apply is_dependency_secrets.
    - done.
    - intros cfg n Hn. simpl. eauto.
    - done.
    - intros s manifests s' _. by apply Forall_forall. }
  destruct Hrun as (calls & Htrace & Hcalls). exists calls. split; [done|].
  rewrite Forall_forall in Hcalls.
  split; [|split].
  - intros md Hin. by apply Hcalls in Hin.
  - intros md Hin. apply Hcalls in Hin. simpl in Hin. by subst.
  - intros md Hin. apply Hcalls in Hin as (cfg & n & Hn & ->).
    split; [done|]. by exists cfg.
Qed.

End DisciplineProperties.

Section ManagedWrites.
Context `{Snapshots} `{Templates} `{!TemplateEngine} `{ResourceNames} `{YAMLDecoder}.
Context `{MapRange} {S : Type} `{!Runtime S}.
Context (managed : S → gmap string bytes) `{!RuntimeLaws managed}.

(** X4: on a runtime that keeps its contract the controller writes to the
    managed resources only.  Every [Update] and every [Destroy] that [Run]
    makes, in the convergence phase and in a teardown alike, has the
    namespace and the type that [ManagedResources] declares. *)
Theorem Run_writes_managed_only signals (w : World S) :
  ∃ calls, trace (Run signals w).2 = trace w ++ calls
    ∧ (∀ md, CallUpdate md ∈ calls → in_ManagedResources md)
    ∧ (∀ md, CallDestroy md ∈ calls → in_ManagedResources md).
Proof.
  set (P := λ c, match c with
                 | CallUpdate md | CallDestroy md => in_ManagedResources md
                 | _ => True
                 end).
  assert (Hrun : emits_at P (Run signals) w).
  { apply Run_emits_at; [done|done|]. intros w'. apply cycle_emits_at; try done.
    intros s manifests s' Hlist. apply law_List in Hlist as (_ & _ & Hmanaged).
    eapply Forall_impl; [exact Hmanaged|]. by intros r [Hns Htyp]. }
  destruct Hrun as (calls & Htrace & Hcalls). exists calls. split; [done|].
  rewrite Forall_forall in Hcalls.
  split; intros md Hin; by apply Hcalls in Hin.
Qed.

End ManagedWrites.

(** ** More on the convergence phase and on whole cycles *)

Section UpsertErrors.
Context `{Snapshots} `{ResourceNames} `{YAMLDecoder}.
Context `{MapRange} {S : Type} `{!Runtime S}.

Lemma updateRendered_app before rest (w w1 : World S) :
  updateRendered before w = (Some None, w1) →
  updateRendered (before ++ rest) w = updateRendered rest w1.
Proof.
  revert w. induction before as [|rm before IH]; intros w; simpl.
  - by intros [= <-].
  - unfold bind. destruct (r_Update _ _ w) as [[[err|]|] w0]; try done. apply IH.
Qed.

(** X5: the convergence phase stops at the first upsert that fails.  When
    the upserts of the manifests before [rm] returned nil and the upsert of
    [rm] fails, the phase returns that error as an error of updating the
    manifests, from the world in which the failed upsert left: the manifests
    after [rm] are not upserted, the managed namespace is not listed and
    nothing is destroyed. *)
Theorem converge_stops_at_failed_upsert before rm after err (w w1 w2 : World S) :
  updateRendered before w = (Some None, w1) →
  r_Update (NewManifest k8s_ControlPlaneNamespaceName (name rm)) (setYAML (data rm)) w1
  = (Some (Some err), w2) →
  converge (before ++ rm :: after) w
  = (Some (Return (Some (Errorf "error updating manifests" err))), w2)
  ∧ trace w2 = trace w ++ (upsertCall <$> before) ++ [upsertCall rm].
Proof.
  intros Hbefore Hupdate. split.
  - unfold converge, bind at 1. rewrite (updateRendered_app _ _ _ _ Hbefore). simpl.
    unfold bind at 1. by rewrite Hupdate.
  - pose proof (updateRendered_trace before w) as Htrace. rewrite Hbefore in Htrace.
    simpl in Htrace. unfold r_Update in Hupdate. rewrite call_eq in Hupdate.
    injection Hupdate as _ <-. simpl. by rewrite Htrace, <- app_assoc.
Qed.

End UpsertErrors.

Section CycleProperties.
Context `{Snapshots} `{Templates} `{!TemplateEngine} `{ResourceNames} `{YAMLDecoder}.
Context `{MapRange} {S : Type} `{!Runtime S}.
Context (managed : S → gmap string bytes) `{!RuntimeLaws managed}.

Lemma foldl_upsert_id (renderedManifests : list renderedManifest) (m : gmap string bytes) :
  (∀ rm, rm ∈ renderedManifests → m !! name rm = Some (data rm)) →
  foldl (λ m rm, <[name rm := data rm]> m) m renderedManifests = m.
Proof.
  induction renderedManifests as [|rm rest IH]; intros Hm; simpl; [done|].
  rewrite insert_id by (apply Hm; by left). apply IH. intros rm' Hrm'. apply Hm. by right.
Qed.

Lemma managed_list_to_map (renderedManifests : list renderedManifest) (m : gmap string bytes) :
  NoDup (names renderedManifests) →
  dom m = list_to_set (names renderedManifests) →
  (∀ rm, rm ∈ renderedManifests → m !! name rm = Some (data rm)) →
  m = list_to_map ((λ rm, (name rm, data rm)) <$> renderedManifests).
Proof.
  intros Hnodup Hdom Hlookup. apply map_eq. intros k.
  set (l := (λ rm, (name rm, data rm)) <$> renderedManifests).
  assert (Hfst : l.*1 = names renderedManifests).
  { unfold l, names. rewrite <- list_fmap_compose. done. }
  destruct (decide (k ∈ names renderedManifests)) as [Hin|Hnin].
  - apply list_elem_of_fmap in Hin as (rm & -> & Hrm).
    rewrite (Hlookup rm Hrm). symmetry.
    apply elem_of_list_to_map; [by rewrite Hfst|].
    apply list_elem_of_fmap. by exists rm.
  - rewrite (not_elem_of_list_to_map_1 l k) by (by rewrite Hfst).
    apply not_elem_of_dom. rewrite Hdom. by rewrite elem_of_list_to_set.
Qed.

(** X6: the convergence phase is idempotent.  After a successful
    convergence phase on a rendered list, a second successful phase on the
    same list leaves the managed namespace as it is and destroys nothing: it
    makes the upserts and the listing, and no other call. *)
Theorem converge_idempotent cfg scrt renderedManifests (w w1 w2 : World S) :
  render cfg scrt = Ok renderedManifests →
  converge renderedManifests w = (Some Continue, w1) →
  converge renderedManifests w1 = (Some Continue, w2) →
  managed (st w2) = managed (st w1)
  ∧ trace w2 = trace w1 ++ (upsertCall <$> renderedManifests) ++ [CallList manifestsMetadata].
Proof.
  intros Hrender Hfirst Hsecond.
  assert (Hnodup : NoDup (names renderedManifests)).
  { rewrite (render_names _ _ _ Hrender). apply manifestNames_NoDup. }
  apply (converge_managed managed) in Hfirst as [Hdom1 Hlookup1].
  assert (Hstored : ∀ rm, rm ∈ renderedManifests →
                          managed (st w1) !! name rm = Some (data rm)).
  { intros rm Hrm. rewrite Hlookup1 by (by apply list_elem_of_fmap_2).
    by apply lookup_foldl_upsert. }
  revert Hsecond. unfold converge, bind, ret, r_List, range.
  pose proof (updateRendered_trace renderedManifests w1) as Htrace.
  destruct (updateRendered renderedManifests w1) as [[[err|]|] w3] eqn:Hupdate;
    simpl in *; try done.
  apply (updateRendered_managed managed) in Hupdate.
  rewrite (foldl_upsert_id _ _ Hstored) in Hupdate. rewrite call_eq.
  destruct (rt_List manifestsMetadata (st w3)) as [[[manifests|err]|] s4] eqn:Hlist;
    simpl; try done.
  apply law_List in Hlist as (Hsame & Hids & _).
  set (w4 := {| st := s4; trace := _ |}).
  set (X := manifestsToDelete manifests renderedManifests).
  assert (HX : X = ∅).
  { apply set_eq. intros id. unfold X. rewrite manifestsToDelete_spec, Hids, Hupdate, Hdom1.
    rewrite elem_of_list_to_set, elem_of_empty. tauto. }
  assert (Hnone : rangeOrder (trace w3 ++ [CallList manifestsMetadata]) X = []).
  { apply Permutation_nil_r. rewrite rangeOrder_perm, HX. by rewrite elements_empty. }
  rewrite Hnone. simpl. intros [= <-]. simpl. split.
  - by rewrite Hsame.
  - by rewrite Htrace, <- app_assoc.
Qed.

(** How a cycle that ends with [continue] went: an input was not found and
    the teardown returned nil, or both inputs were read and rendered and the
    convergence phase ended without error. *)
Lemma cycle_Continue_inv (w w' : World S) :
  cycle w = (Some Continue, w') →
  (∃ err w1, IsNotFoundError err = true
             ∧ teardownAll w1 = (Some None, w')
             ∧ (r_Get configMetadata w = (Some (Err err), w1)
                ∨ ∃ configResource w0,
                    r_Get configMetadata w = (Some (Ok configResource), w0)
                    ∧ r_Get secretsMetadata w0 = (Some (Err err), w1)))
  ∨ (∃ md1 cfg md2 scrt renderedManifests w0 w1,
       r_Get configMetadata w = (Some (Ok (K8sControlPlane md1 cfg)), w0)
       ∧ r_Get secretsMetadata w0 = (Some (Ok (Kubernetes md2 scrt)), w1)
       ∧ render cfg scrt = Ok renderedManifests
       ∧ converge renderedManifests w1 = (Some Continue, w')).
Proof.
  assert (Hteardown : ∀ w1, teardown w1 = (Some Continue, w') →
                            teardownAll w1 = (Some None, w')).
  { intros w1. unfold teardown, bind.
    destruct (teardownAll w1) as [[[err|]|] w2]; try done. by intros [= <-]. }
  rewrite cycle_eq.
  destruct (r_Get configMetadata w) as [[[configResource|err]|] w0] eqn:Hconfig;
    [| |done].
  - destruct (Manifests configResource w0) as [[config|] w1] eqn:Hassert; [|done].
    pose proof (Manifests_world _ _ _ _ Hassert) as ->.
    destruct configResource as [md1 cfg| |]; try done.
    simpl in Hassert. injection Hassert as <-.
    destruct (r_Get secretsMetadata w0) as [[[secretsResources|err]|] w2] eqn:Hsecrets;
      [| |done].
    + destruct (Secrets_of secretsResources w2) as [[secrets|] w3] eqn:Hassert'; [|done].
      pose proof (Secrets_of_world _ _ _ _ Hassert') as ->.
      destruct secretsResources as [|md2 scrt|]; try done.
      simpl in Hassert'. injection Hassert' as <-.
      destruct (render cfg scrt) as [renderedManifests|err] eqn:Hrender; [|done].
      intros Hconverge. right. eauto 12.
    + destruct (IsNotFoundError err) eqn:Hnotfound; [|done].
      intros Htear. apply Hteardown in Htear. left. eauto 12.
  - destruct (IsNotFoundError err) eqn:Hnotfound; [|done].
    intros Htear. apply Hteardown in Htear. left. eauto 12.
Qed.

(** X7: what a cycle leaves behind.  On a runtime that keeps its contract,
    after a cycle that ends without error the managed namespace either is
    empty, one of the two inputs having been absent, or is exactly the
    rendering of the two snapshots that the cycle read: one entry per rendered
    manifest, the name as id and the data as payload. *)
Theorem cycle_result (w w' : World S) :
  cycle w = (Some Continue, w') →
  (managed (st w') = ∅
   ∧ ∃ err w1, IsNotFoundError err = true
               ∧ (r_Get configMetadata w = (Some (Err err), w1)
                  ∨ ∃ configResource w0,
                      r_Get configMetadata w = (Some (Ok configResource), w0)
                      ∧ r_Get secretsMetadata w0 = (Some (Err err), w1)))
  ∨ (∃ md1 cfg md2 scrt renderedManifests w0 w1,
       r_Get configMetadata w = (Some (Ok (K8sControlPlane md1 cfg)), w0)
       ∧ r_Get secretsMetadata w0 = (Some (Ok (Kubernetes md2 scrt)), w1)
       ∧ render cfg scrt = Ok renderedManifests
       ∧ managed (st w')
         = list_to_map ((λ rm, (name rm, data rm)) <$> renderedManifests)).
Proof.
  intros Hcycle.
  apply cycle_Continue_inv in Hcycle
    as [(err & w1 & Hnotfound & Hteardown & Hread)
       |(md1 & cfg & md2 & scrt & renderedManifests & w0 & w1
         & Hconfig & Hsecrets & Hrender & Hconverge)].
  - left. split; [by apply (teardownAll_empties managed) in Hteardown|]. eauto.
  - right. exists md1, cfg, md2, scrt, renderedManifests, w0, w1.
    split; [done|]. split; [done|]. split; [done|].
    assert (Hnodup : NoDup (names renderedManifests)).
    { rewrite (render_names _ _ _ Hrender). apply manifestNames_NoDup. }
    apply (converge_managed managed) in Hconverge as [Hdom Hlookup].
    apply managed_list_to_map; [done..|].
    intros rm Hrm. rewrite Hlookup by (by apply list_elem_of_fmap_2).
    by apply lookup_foldl_upsert.
Qed.

(** X8: the managed namespace between cycles.  On a runtime that keeps its
    contract, whenever the loop is back in the [select] after one or more
    wake-ups, the managed namespace is empty or its identities are exactly
    the names that the renderer selects for some configuration: the ten
    default manifests and, with them, the optional ones that configuration
    asks for. *)
Theorem loop_managed_names signals (w w' : World S) :
  signals ≠ [] →
  loop signals w = (Some Waiting, w') →
  managed (st w') = ∅
  ∨ ∃ cfg, dom (managed (st w')) = list_to_set (manifestNames cfg)
           ∧ ∀ n, n ∈ defaultNames → n ∈ dom (managed (st w')).
Proof.
  revert w. induction signals as [|[|] rest IH]; intros w Hsignals; [done|done|].
  rewrite loop_Event.
  destruct (cycle (selected w)) as [[[|oe]|] w1] eqn:Hcycle; [|done..].
  destruct rest as [|signal rest]; [|apply IH; done].
  intros [= <-]. simpl.
  apply cycle_Continue_inv in Hcycle
    as [(err & w0 & _ & Hteardown & _)
       |(md1 & cfg & md2 & scrt & renderedManifests & w0 & w2
         & _ & _ & Hrender & Hconverge)].
  - left. by apply (teardownAll_empties managed) in Hteardown.
  - right. exists cfg. apply (converge_managed managed) in Hconverge as [Hdom _].
    rewrite Hdom, (render_names _ _ _ Hrender). split; [done|].
    intros n Hn. rewrite elem_of_list_to_set, manifestNames_cases.
    apply elem_of_app. by left.
Qed.

End CycleProperties.

(** ** The errors of the renderer *)

Section RendererErrors.
Context `{Snapshots} `{Templates} `{!TemplateEngine}.

Lemma executeAll_app templateConfig before rest manifests :
  executeAll templateConfig before = Ok manifests →
  executeAll templateConfig (before ++ rest)
  = match executeAll templateConfig rest with
    | Ok manifests' => Ok (manifests ++ manifests')
    | Err err => Err err
    end.
Proof.
  revert manifests. induction before as [|d before IH]; intros manifests; simpl.
  - intros [= <-]. by destruct (executeAll templateConfig rest).
  - destruct (template_Parse _ _) as [tmpl|]; [|done].
    destruct (template_Execute _ _) as [buf|]; [|done].
    destruct (executeAll templateConfig before) as [ms|]; [|done].
    intros [= <-]. rewrite (IH ms eq_refl).
    by destruct (executeAll templateConfig rest).
Qed.

(** X9: a failure of the renderer names the first template that fails.
    When the templates selected before [d] parse and execute, and [d] does
    not parse or, parsed, does not execute, [render] returns the error of
    the template engine wrapped under the quoted name of [d], whatever the
    templates after [d] would do. *)
Theorem render_names_first_failure cfg scrt before d after manifests err :
  manifestDescs cfg = before ++ d :: after →
  executeAll {| tc_K8sManifestsSpec := cfg; Secrets := scrt |} before = Ok manifests →
  (template_Parse (desc_name d) (desc_template d) = Err err →
   render cfg scrt
   = Err (Errorf ("error parsing manifest template " +:+ quoted (desc_name d)) err))
  ∧ (∀ tmpl, template_Parse (desc_name d) (desc_template d) = Ok tmpl →
       template_Execute tmpl {| tc_K8sManifestsSpec := cfg; Secrets := scrt |} = Err err →
       render cfg scrt
       = Err (Errorf ("error executing template " +:+ quoted (desc_name d)) err)).
Proof.
  intros Hdescs Hbefore. unfold render. rewrite Hdescs.
  rewrite (executeAll_app _ _ _ _ Hbefore). simpl. split.
  - by intros ->.
  - intros tmpl -> Hexec. by rewrite Hexec.
Qed.

Lemma executeAll_Ok_iff templateConfig descs :
  (∃ manifests, executeAll templateConfig descs = Ok manifests) ↔
  Forall (λ d, ∃ tmpl buf,
            template_Parse (desc_name d) (desc_template d) = Ok tmpl
            ∧ template_Execute tmpl templateConfig = Ok buf) descs.
Proof.
  induction descs as [|d rest IH]; simpl.
  - split; [by constructor|]. intros _. by exists [].
  - rewrite Forall_cons, <- IH. clear IH. split.
    + intros [manifests Hexec].
      destruct (template_Parse _ _) as [tmpl|] eqn:Hparse; [|done].
      destruct (template_Execute _ _) as [buf|] eqn:Hrun; [|done].
      destruct (executeAll templateConfig rest) as [ms|]; [|done].
      split; [|by exists ms]. by exists tmpl, buf.
    + intros [(tmpl & buf & -> & ->) [ms ->]]. by eexists.
Qed.

Lemma executeAll_Err templateConfig descs e :
  executeAll templateConfig descs = Err e →
  ∃ d err, d ∈ descs
    ∧ ((template_Parse (desc_name d) (desc_template d) = Err err
        ∧ e = Errorf ("error parsing manifest template " +:+ quoted (desc_name d)) err)
       ∨ (∃ tmpl, template_Parse (desc_name d) (desc_template d) = Ok tmpl
                  ∧ template_Execute tmpl templateConfig = Err err
                  ∧ e = Errorf ("error executing template " +:+ quoted (desc_name d)) err)).
Proof.
  induction descs as [|d rest IH]; simpl; [done|].
  destruct (template_Parse _ _) as [tmpl|err] eqn:Hparse.
  - destruct (template_Execute _ _) as [buf|err] eqn:Hexec.
    + destruct (executeAll templateConfig rest) as [ms|err]; [done|].
      intros [= <-]. destruct (IH eq_refl) as (d' & err' & Hd' & Hcases).
      exists d', err'. split; [by right|done].
    + intros [= <-]. exists d, err. split; [by left|]. right. by exists tmpl.
  - intros [= <-]. exists d, err. split; [by left|]. by left.
Qed.

(** X10: when the renderer succeeds and what its errors are.  [render]
    returns a list exactly when every template that the configuration
    selects parses and executes on the two snapshots; and an error that it
    returns is the error of the template engine on one of the selected
    templates, wrapped under the quoted name of that template as an error of
    parsing or of executing. *)
Theorem render_succeeds_iff cfg scrt :
  ((∃ manifests, render cfg scrt = Ok manifests) ↔
   Forall (λ d, ∃ tmpl buf,
             template_Parse (desc_name d) (desc_template d) = Ok tmpl
             ∧ template_Execute tmpl {| tc_K8sManifestsSpec := cfg; Secrets := scrt |}
               = Ok buf)
          (manifestDescs cfg))
  ∧ (∀ e, render cfg scrt = Err e →
       ∃ d err, d ∈ manifestDescs cfg
         ∧ ((template_Parse (desc_name d) (desc_template d) = Err err
             ∧ e = Errorf ("error parsing manifest template " +:+ quoted (desc_name d)) err)
            ∨ (∃ tmpl, template_Parse (desc_name d) (desc_template d) = Ok tmpl
                 ∧ template_Execute tmpl {| tc_K8sManifestsSpec := cfg; Secrets := scrt |}
                   = Err err
                 ∧ e = Errorf ("error executing template " +:+ quoted (desc_name d)) err))).
Proof.
  split; [apply executeAll_Ok_iff|]. intros e. apply executeAll_Err.
Qed.

End RendererErrors.

(** ** The system mount points *)

Module mount_properties.
Import mount.

Section SystemProperties.
Context `{Constants} `{BlockDevices} `{MountPoints} `{!Machine}.

Lemma target_of_Some label target :
  target_of label = Some target →
  (label = EphemeralPartitionLabel ∧ target = EphemeralMountPoint)
  ∨ (label = BootPartitionLabel ∧ target = BootMountPoint)
  ∨ (label = EFIPartitionLabel ∧ target = EFIMountPoint)
  ∨ (label = StatePartitionLabel ∧ target = StateMountPoint).
Proof.
  unfold target_of. repeat case_bool_decide; intros [= <-]; auto.
Qed.

Lemma target_of_known label :
  label ∈ [EphemeralPartitionLabel; BootPartitionLabel; EFIPartitionLabel;
           StatePartitionLabel] →
  is_Some (target_of label).
Proof.
  rewrite !elem_of_cons, elem_of_nil. unfold target_of.
  intros Hlabel. repeat case_bool_decide; try done. tauto.
Qed.

Lemma target_of_None label :
  target_of label = None →
  label ∉ [EphemeralPartitionLabel; BootPartitionLabel; EFIPartitionLabel;
           StatePartitionLabel].
Proof.
  intros Hnone Hlabel. apply target_of_known in Hlabel as [target Htarget]. congruence.
Qed.

(** X11: what a mount point returned by [SystemMountPointForLabel] is.
    A mount point is never returned together with an error.  When one is
    returned, the label is one of the four system labels, the device has a
    partition for it, and the mount point is made of the path of that
    partition, the mount point that belongs to the label, the filesystem of
    the partition, the flag [MS_NOATIME], no data, and the options given. *)
Theorem SystemMountPointForLabel_mountpoint device label opts mountpoint err :
  SystemMountPointForLabel device label opts = (Some mountpoint, err) →
  err = None
  ∧ ∃ target partition err' fsType partPath,
      ((label = EphemeralPartitionLabel ∧ target = EphemeralMountPoint)
       ∨ (label = BootPartitionLabel ∧ target = BootMountPoint)
       ∨ (label = EFIPartitionLabel ∧ target = EFIMountPoint)
       ∨ (label = StatePartitionLabel ∧ target = StateMountPoint))
      ∧ GetPartition device label = (Some partition, err')
      ∧ (err' = None ∨ err' = Some ErrNotExist)
      ∧ Filesystem partition = Ok fsType
      ∧ Path partition = Ok partPath
      ∧ mountpoint = NewMountPoint partPath target fsType MS_NOATIME "" opts.
Proof.
  unfold SystemMountPointForLabel.
  destruct (target_of label) as [target|] eqn:Htarget; [|done].
  apply target_of_Some in Htarget.
  destruct (GetPartition device label) as [[partition|] err'] eqn:Hget.
  - destruct (Filesystem partition) as [fsType|] eqn:Hfs;
      [|by destruct err' as [[| |]|]].
    destruct (Path partition) as [partPath|] eqn:Hpath;
      [|by destruct err' as [[| |]|]].
    destruct err' as [[| |]|]; try done; intros [= <- <-];
      (split; [done|]); exists target, partition; eauto 10.
  - destruct err' as [[| |]|]; try done; by case_bool_decide.
Qed.

Lemma SystemMountPointForLabel_nil device label opts :
  SystemMountPointForLabel device label opts = (None, None) →
  label = BootPartitionLabel
  ∧ ∃ err, GetPartition device label = (None, err) ∧ (err = None ∨ err = Some ErrNotExist).
Proof.
  unfold SystemMountPointForLabel.
  destruct (target_of label) as [target|]; [|done].
  destruct (GetPartition device label) as [[partition|] err'].
  - destruct (Filesystem partition), (Path partition), err' as [[| |]|]; done.
  - destruct err' as [[| |]|]; try done; case_bool_decide; try done; eauto.
Qed.

(** X12: only the boot partition may be missing.  When the device has no
    partition for a system label (with no error, or with [os.ErrNotExist]),
    [SystemMountPointForLabel] returns neither mount point nor error for the
    boot label, and for the other labels the error of not finding the device,
    which wraps what [GetPartition] returned; an unknown label is an error
    whatever the device; and nil with a nil error is returned in no other
    case than the missing boot partition. *)
Theorem boot_partition_is_optional device label opts :
  (∀ err, label ∈ [EphemeralPartitionLabel; BootPartitionLabel; EFIPartitionLabel;
                   StatePartitionLabel] →
          GetPartition device label = (None, err) →
          err = None ∨ err = Some ErrNotExist →
          SystemMountPointForLabel device label opts
          = if bool_decide (label = BootPartitionLabel)
            then (None, None)
            else (None, Some (Errorf "failed to find device with label %s: %w" [label] err)))
  ∧ (label ∉ [EphemeralPartitionLabel; BootPartitionLabel; EFIPartitionLabel;
              StatePartitionLabel] →
     SystemMountPointForLabel device label opts
     = (None, Some (Errorf "unknown label: %q" [label] None)))
  ∧ (SystemMountPointForLabel device label opts = (None, None) →
     label = BootPartitionLabel
     ∧ ∃ err, GetPartition device label = (None, err)
              ∧ (err = None ∨ err = Some ErrNotExist)).
Proof.
  split; [|split; [|apply SystemMountPointForLabel_nil]].
  - intros err Hlabel Hget Herr. unfold SystemMountPointForLabel.
    destruct (target_of_known label Hlabel) as [target ->]. rewrite Hget.
    by destruct Herr as [-> | ->].
  - intros Hlabel. unfold SystemMountPointForLabel.
    destruct (target_of label) as [target|] eqn:Htarget; [|done].
    exfalso. apply Hlabel. apply target_of_Some in Htarget.
    rewrite !elem_of_cons. tauto.
Qed.

(** X13: an error of the block device is handed on as it is.  When
    [GetPartition] returns an error other than [os.ErrNotExist] for a system
    label, [SystemMountPointForLabel] returns that error and no mount point,
    even when a partition came with the error; and so it does with the error
    of the filesystem or of the path of the partition found. *)
Theorem SystemMountPointForLabel_device_errors device label opts :
  label ∈ [EphemeralPartitionLabel; BootPartitionLabel; EFIPartitionLabel;
           StatePartitionLabel] →
  (∀ partition err, GetPartition device label = (partition, Some err) →
                    err ≠ ErrNotExist →
                    SystemMountPointForLabel device label opts = (None, Some err))
  ∧ (∀ partition err' err, GetPartition device label = (Some partition, err') →
                           err' = None ∨ err' = Some ErrNotExist →
                           Filesystem partition = Err err →
                           SystemMountPointForLabel device label opts = (None, Some err))
  ∧ (∀ partition err' fsType err, GetPartition device label = (Some partition, err') →
                                  err' = None ∨ err' = Some ErrNotExist →
                                  Filesystem partition = Ok fsType →
                                  Path partition = Err err →
                                  SystemMountPointForLabel device label opts
                                  = (None, Some err)).
Proof.
  intros Hlabel. unfold SystemMountPointForLabel.
  destruct (target_of_known label Hlabel) as [target ->].
  split; [|split].
  - intros partition err -> Herr. by destruct err.
  - intros partition err' err -> Herr' ->. by destruct Herr' as [-> | ->].
  - intros partition err' fsType err -> Herr' -> ->. by destruct Herr' as [-> | ->].
Qed.

Lemma SystemMountPointForLabel_exclusive device label opts mountpoint err :
  SystemMountPointForLabel device label opts = (mountpoint, Some err) → mountpoint = None.
Proof.
  unfold SystemMountPointForLabel.
  destruct (target_of label) as [target|]; [|by intros [= <- _]].
  destruct (GetPartition device label) as [[partition|] err'].
  - destruct (Filesystem partition), (Path partition), err' as [[| |]|];
      by intros [= <- _].
  - destruct err' as [[| |]|]; try case_bool_decide; by intros [= <- _].
Qed.

(** X14: the mount points of a device are all or nothing, and the device
    is closed.  When the device cannot be opened, [SystemMountPointsForDevice]
    returns the error of [Open] and closes nothing.  When it is opened, it is
    closed once, whatever follows; the result holds the mount points of the
    four system labels, set in the order ephemeral, boot, EFI, state, when
    none of the four gives an error (the one of the boot label may be nil,
    and only that one, when no other label equals the boot label); otherwise
    it is the error of the first label that fails, with no mount points. *)
Theorem SystemMountPointsForDevice_result devpath opts :
  match Open devpath with
  | Err err => SystemMountPointsForDevice devpath opts = ((None, Some err), [])
  | Ok bd =>
      (SystemMountPointsForDevice devpath opts).2 = [bd]
      ∧ ((∃ ephemeral boot efi state,
            SystemMountPointForLabel bd EphemeralPartitionLabel opts = (ephemeral, None)
            ∧ SystemMountPointForLabel bd BootPartitionLabel opts = (boot, None)
            ∧ SystemMountPointForLabel bd EFIPartitionLabel opts = (efi, None)
            ∧ SystemMountPointForLabel bd StatePartitionLabel opts = (state, None)
            ∧ (SystemMountPointsForDevice devpath opts).1
              = (Some (Points_Set
                         (Points_Set
                            (Points_Set
                               (Points_Set NewMountPoints EphemeralPartitionLabel ephemeral)
                               BootPartitionLabel boot)
                            EFIPartitionLabel efi)
                         StatePartitionLabel state), None)
            ∧ (EphemeralPartitionLabel ≠ BootPartitionLabel → is_Some ephemeral)
            ∧ (EFIPartitionLabel ≠ BootPartitionLabel → is_Some efi)
            ∧ (StatePartitionLabel ≠ BootPartitionLabel → is_Some state))
         ∨ (∃ before label after err,
              [EphemeralPartitionLabel; BootPartitionLabel; EFIPartitionLabel;
               StatePartitionLabel] = before ++ label :: after
              ∧ Forall (λ l, (SystemMountPointForLabel bd l opts).2 = None) before
              ∧ SystemMountPointForLabel bd label opts = (None, Some err)
              ∧ (SystemMountPointsForDevice devpath opts).1 = (None, Some err)))
  end.
Proof.
  assert (Hsome : ∀ bd label m, SystemMountPointForLabel bd label opts = (m, None) →
                                label ≠ BootPartitionLabel → is_Some m).
  { intros bd label [p|] Hm Hlabel; [by eexists|].
    by apply SystemMountPointForLabel_nil in Hm as [? _]. }
  unfold SystemMountPointsForDevice.
  destruct (Open devpath) as [bd|err]; [|done]. simpl. split; [done|].
  destruct (SystemMountPointForLabel bd EphemeralPartitionLabel opts)
    as [ephemeral [err|]] eqn:Hephemeral.
  { right. apply SystemMountPointForLabel_exclusive in Hephemeral as Hnil. subst.
    exists [], EphemeralPartitionLabel. eexists _, err.
    split; [done|]. split; [by constructor|]. done. }
  destruct (SystemMountPointForLabel bd BootPartitionLabel opts)
    as [boot [err|]] eqn:Hboot.
  { right. apply SystemMountPointForLabel_exclusive in Hboot as Hnil. subst.
    exists [EphemeralPartitionLabel], BootPartitionLabel. eexists _, err.
    split; [done|]. split; [|done]. repeat constructor. by rewrite Hephemeral. }
  destruct (SystemMountPointForLabel bd EFIPartitionLabel opts)
    as [efi [err|]] eqn:Hefi.
  { right. apply SystemMountPointForLabel_exclusive in Hefi as Hnil. subst.
    exists [EphemeralPartitionLabel; BootPartitionLabel], EFIPartitionLabel.
    eexists _, err. split; [done|]. split; [|done].
    repeat constructor; [by rewrite Hephemeral|by rewrite Hboot]. }
  destruct (SystemMountPointForLabel bd StatePartitionLabel opts)
    as [state [err|]] eqn:Hstate.
  { right. apply SystemMountPointForLabel_exclusive in Hstate as Hnil. subst.
    exists [EphemeralPartitionLabel; BootPartitionLabel; EFIPartitionLabel],
      StatePartitionLabel.
    eexists _, err. split; [done|]. split; [|done].
    repeat constructor; [by rewrite Hephemeral|by rewrite Hboot|by rewrite Hefi]. }
  left. exists ephemeral, boot, efi, state. repeat split; eauto.
Qed.

(** X15: a partition is mounted only through a mount point.
    [SystemPartitionMount] returns nil only when the machine has a device for
    the label, [SystemMountPointForLabel] gave a mount point for it, and
    [Mount] returned nil on the points that hold this mount point under the
    label.  When there is no device, or no mount point because the boot
    partition is missing, it returns an error of its own. *)
Theorem SystemPartitionMount_nil r label opts :
  (SystemPartitionMount r label opts = None →
   ∃ device mountpoint,
     Disk r label = Some device
     ∧ SystemMountPointForLabel device label opts = (Some mountpoint, None)
     ∧ Mount (Points_Set NewMountPoints label (Some mountpoint)) = None)
  ∧ (Disk r label = None →
     SystemPartitionMount r label opts
     = Some (Errorf "failed to find device with partition labeled %s" [label] None))
  ∧ (∀ device, Disk r label = Some device →
               SystemMountPointForLabel device label opts = (None, None) →
               SystemPartitionMount r label opts
               = Some (Errorf "no mountpoints for label %q" [label] None)).
Proof.
  unfold SystemPartitionMount. split; [|split].
  - destruct (Disk r label) as [device|]; [|done].
    destruct (SystemMountPointForLabel device label opts) as [[p|] [err|]] eqn:Hp;
      try done.
    intros Hmount. by exists device, p.
  - by intros ->.
  - by intros device -> ->.
Qed.

(** X16: unmounting addresses what mounting without options mounted.  For
    a machine and a label, either [SystemPartitionMount] without options and
    [SystemPartitionUnmount] fail alike, with the same error and before any
    mount point is handed to [Mount] or [Unmount], or they hand the same
    points, the one mount point of the label, to [Mount] and to [Unmount]. *)
Theorem SystemPartitionUnmount_same_points r label :
  (∃ err, SystemPartitionMount r label [] = Some err
          ∧ SystemPartitionUnmount r label = Some err
          ∧ ∀ device, Disk r label = Some device →
                      (SystemMountPointForLabel device label []).1 = None)
  ∨ (∃ device mountpoint,
       Disk r label = Some device
       ∧ SystemMountPointForLabel device label [] = (Some mountpoint, None)
       ∧ SystemPartitionMount r label []
         = Mount (Points_Set NewMountPoints label (Some mountpoint))
       ∧ SystemPartitionUnmount r label
         = Unmount (Points_Set NewMountPoints label (Some mountpoint))).
Proof.
  unfold SystemPartitionMount, SystemPartitionUnmount.
  destruct (Disk r label) as [device|]; [|left; by eexists].
  destruct (SystemMountPointForLabel device label []) as [[p|] [err|]] eqn:Hp.
  - by apply SystemMountPointForLabel_exclusive in Hp.
  - right. by exists device, p.
  - left. exists err. split; [done|]. split; [done|]. intros ? [= <-]. by rewrite Hp.
  - left. eexists. split; [done|]. split; [done|]. intros ? [= <-]. by rewrite Hp.
Qed.

End SystemProperties.

End mount_properties.

(** ** The properties on the example instantiation *)

#[local] Existing Instances ex_Snapshots ex_Templates ex_TemplateEngine
  ex_ResourceNames ex_YAMLDecoder elements_MapRange.


(** The hypothesis on the engine is needed: on the engine whose output
    depends on the number of earlier calls, the second of two invocations in
    a row returns other payloads than the first. *)
Lemma render_follows_engine :
  (renderIn (Engine := ex_leaking_TemplateEngine) ex_config ex_secret
     (renderIn (Engine := ex_leaking_TemplateEngine)
        ex_config ex_secret 0).2).1
  ≠ (renderIn (Engine := ex_leaking_TemplateEngine)
       ex_config ex_secret 0).1.
Proof. vm_compute. discriminate. Qed.

Lemma render_conditional_inclusion_witness :
  ("11-core-dns-v6-svc" ∈ names ex_desired ↔ DNSServiceIPv6 ex_config ≠ "")
  ∧ ("05-flannel" ∈ names ex_desired ↔ FlannelEnabled ex_config = true)
  ∧ (∀ n, n ∈ [ "00-kubelet-bootstrapping-token"; "01-csr-node-bootstrap";
                "01-csr-approver-role-binding"; "01-csr-renewal-role-binding";
                "02-kube-system-sa-role-binding"; "03-default-pod-security-policy";
                "10-kube-proxy"; "11-kube-config-in-cluster"; "11-core-dns";
                "11-core-dns-svc" ] → n ∈ names ex_desired)
  ∧ names ex_desired = manifestNames ex_config.
Proof.
  apply (render_conditional_inclusion ex_config ex_secret ex_desired). reflexivity.
Defined.

Lemma render_names_distinct_witness :
  ex_desired ≠ []
  ∧ 10 ≤ length ex_desired
  ∧ (∀ n, n ∈ [ "00-kubelet-bootstrapping-token"; "01-csr-node-bootstrap";
                "01-csr-approver-role-binding"; "01-csr-renewal-role-binding";
                "02-kube-system-sa-role-binding"; "03-default-pod-security-policy";
                "10-kube-proxy"; "11-kube-config-in-cluster"; "11-core-dns";
                "11-core-dns-svc" ] → n ∈ names ex_desired)
  ∧ NoDup (names ex_desired)
  ∧ (∀ m1 m2, m1 ∈ ex_desired → m2 ∈ ex_desired → name m1 = name m2 → data m1 = data m2).
Proof.
  apply (render_names_distinct ex_config ex_secret ex_desired). reflexivity.
Defined.

Lemma convergence_correct_witness :
  dom (mem_manifests (st (converge ex_desired (ex_world ex_state)).2))
  = list_to_set (names ex_desired)
  ∧ ∀ rm, rm ∈ ex_desired →
      mem_manifests (st (converge ex_desired (ex_world ex_state)).2) !! name rm
      = Some (data rm).
Proof.
  apply (convergence_correct mem_manifests ex_config ex_secret ex_desired
           (ex_world ex_state) (converge ex_desired (ex_world ex_state)).2).
  - reflexivity.
  - vm_compute. reflexivity.
Defined.

Lemma listing_follows_upserts_witness :
  upsertCall <$> ex_desired = upsertCall <$> ex_desired
  ∧ (∃ w1, updateRendered ex_desired (ex_world ex_state) = (Some None, w1))
  ∧ ∃ ids, [destroyCall "05-flannel"] = destroyCall <$> ids
           ∧ ∀ id, id ∈ ids → id ∉ names ex_desired.
Proof.
  apply (proj1 (listing_follows_upserts ex_desired (ex_world ex_state))
           (upsertCall <$> ex_desired) manifestsMetadata [destroyCall "05-flannel"]).
  vm_compute. reflexivity.
Defined.

Lemma teardown_idempotent_witness :
  mem_manifests (st (teardownAll (ex_world ex_state)).2) = ∅
  ∧ mem_manifests (st (teardownAll (teardownAll (ex_world ex_state)).2).2)
    = mem_manifests (st (teardownAll (ex_world ex_state)).2)
  ∧ mem_manifests (st (teardownAll (teardownAll (ex_world ex_state)).2).2) = ∅
  ∧ trace (teardownAll (teardownAll (ex_world ex_state)).2).2
    = trace (teardownAll (ex_world ex_state)).2 ++ [CallList manifestsMetadata].
Proof.
  destruct (teardown_idempotent mem_manifests (ex_world ex_state)) as (Honce & Htwice & _).
  split.
  - apply Honce. vm_compute. reflexivity.
  - apply Htwice; vm_compute; reflexivity.
Defined.

(** C3 as stated fails: the configuration input is absent, the listing of
    the teardown fails, and the loop returns an error with the managed
    namespace as it was. *)
Lemma absent_input_counterexample :
  (r_Get configMetadata (selected (ex_world ex_state_no_config_faulty))).1
  = Some (Err (NotFoundError "resource doesn't exist"))
  ∧ (loop [Event] (ex_world ex_state_no_config_faulty)).1
    = Some (Returned (Some (Errorf "error tearing down"
                              (Errorf "error listing manifests"
                                 (OtherError "store unavailable")))))
  ∧ mem_manifests (st (loop [Event] (ex_world ex_state_no_config_faulty)).2)
    = ex_manifests
  ∧ ex_manifests !! "05-flannel" = Some [x0c].
Proof. repeat split; vm_compute; reflexivity. Qed.

Lemma absent_input_tears_down_witness :
  cycle (selected (ex_world ex_state_no_config))
  = teardown (r_Get configMetadata (selected (ex_world ex_state_no_config))).2
  ∧ (∀ w', teardownAll (r_Get configMetadata (selected (ex_world ex_state_no_config))).2
           = (Some None, w') →
       mem_manifests (st w') = ∅
       ∧ cycle (selected (ex_world ex_state_no_config)) = (Some Continue, w')
       ∧ loop [Event; Done] (ex_world ex_state_no_config) = loop [Done] w'
       ∧ loop [Event] (ex_world ex_state_no_config) = (Some Waiting, selected w'))
  ∧ (∀ e w', teardownAll (r_Get configMetadata (selected (ex_world ex_state_no_config))).2
             = (Some (Some e), w') →
       loop [Event; Done] (ex_world ex_state_no_config)
       = (Some (Returned (Some (Errorf "error tearing down" e))), w')).
Proof.
  apply (absent_input_tears_down mem_manifests [Done]
           (NotFoundError "resource doesn't exist") (ex_world ex_state_no_config)).
  - left. vm_compute. reflexivity.
  - reflexivity.
Defined.

(** C2 as stated fails: on a store where destroying an absent identity is
    an error, a manifest that another writer destroys between the listing
    and the deletion makes the teardown, and with it the loop, return the
    not-found error, although the managed namespace is empty by then. *)
Lemma teardown_tolerance_counterexample :
  (teardownAll (Runtime0 := racy_Runtime ["05-flannel"; "10-kube-proxy"])
     (ex_world ex_state_no_config)).1
  = Some (Some (Errorf "error destroying manifest"
                  (NotFoundError "resource doesn't exist")))
  ∧ IsNotFoundError (NotFoundError "resource doesn't exist") = true
  ∧ mem_manifests
      (st (teardownAll (Runtime0 := racy_Runtime ["05-flannel"; "10-kube-proxy"])
             (ex_world ex_state_no_config)).2) = ∅
  ∧ (Run (Runtime0 := racy_Runtime ["05-flannel"; "10-kube-proxy"]) [Event; Done]
       (ex_world ex_state_no_config)).1
    = Some (Returned (Some (Errorf "error tearing down"
                              (Errorf "error destroying manifest"
                                 (NotFoundError "resource doesn't exist"))))).
Proof. repeat split; vm_compute; reflexivity. Qed.

Lemma teardown_propagates_destroy_errors_witness :
  teardownAll (Runtime0 := racy_Runtime ["05-flannel"; "10-kube-proxy"])
    (ex_world ex_state_no_config)
  = (Some (Some (Errorf "error destroying manifest"
                   (NotFoundError "resource doesn't exist"))),
     (teardownAll (Runtime0 := racy_Runtime ["05-flannel"; "10-kube-proxy"])
        (ex_world ex_state_no_config)).2)
  ∧ teardown (Runtime0 := racy_Runtime ["05-flannel"; "10-kube-proxy"])
      (ex_world ex_state_no_config)
    = (Some (Return (Some (Errorf "error tearing down"
                             (Errorf "error destroying manifest"
                                (NotFoundError "resource doesn't exist"))))),
       (teardownAll (Runtime0 := racy_Runtime ["05-flannel"; "10-kube-proxy"])
          (ex_world ex_state_no_config)).2).
Proof.
  eapply (teardown_propagates_destroy_errors
            (Runtime0 := racy_Runtime ["05-flannel"; "10-kube-proxy"]) []).
  - vm_compute. reflexivity.
  - reflexivity.
  - vm_compute. reflexivity.
Defined.

Lemma Run_declares_dependencies_once_witness :
  Run [Event; Done] (ex_world ex_state_rejecting)
  = (Some (Returned (Some (Errorf "error setting up dependencies"
                             (OtherError "malformed dependency")))),
     {| st := ex_state_rejecting; trace := [CallUpdateDependencies dependencies] |}).
Proof.
  destruct (Run_declares_dependencies_once [Event; Done] (ex_world ex_state_rejecting))
    as (rest & _ & _ & Hrejected & _).
  apply (Hrejected (OtherError "malformed dependency") ex_state_rejecting). reflexivity.
Defined.

Lemma loop_cancellation_witness :
  Run [Done; Event] (ex_world ex_state)
  = (Some (Returned None),
     {| st := ex_state; trace := [CallUpdateDependencies dependencies; CallSelect] |}).
Proof.
  apply (proj1 (proj2 (loop_cancellation [Event] (ex_world ex_state))) ex_state).
  reflexivity.
Defined.

(** ** More properties on the example instantiation *)

Lemma cycle_error_taxonomy_witness :
  ∃ e, Some (OtherError "store unavailable") = Some e
    ∧ ((∃ md w0, (md = configMetadata ∨ md = secretsMetadata)
                 ∧ r_Get md w0
                   = (Some (Err e), (cycle (selected (ex_world ex_state_unreadable))).2)
                 ∧ IsNotFoundError e = false)
       ∨ (∃ cfg scrt, render cfg scrt = Err e)
       ∨ (∃ e', e = Errorf "error tearing down" (Errorf "error listing manifests" e'))
       ∨ (∃ e', e = Errorf "error tearing down" (Errorf "error destroying manifest" e'))
       ∨ (∃ e', e = Errorf "error updating manifests" e')
       ∨ (∃ e', e = Errorf "error listing manifests" e')
       ∨ (∃ e', e = Errorf "error cleaning up manifests" e')).
Proof.
  apply (cycle_error_taxonomy (selected (ex_world ex_state_unreadable))).
  vm_compute. reflexivity.
Defined.

Lemma Run_nil_only_on_cancellation_witness :
  ∃ events rest s0 w_end,
    [Event; Done; Event] = events ++ Done :: rest
    ∧ Forall (λ s, s = Event) events
    ∧ rt_UpdateDependencies dependencies (st (ex_world ex_state)) = (Some None, s0)
    ∧ cycles_continue events
        {| st := s0;
           trace := trace (ex_world ex_state) ++ [CallUpdateDependencies dependencies] |}
        w_end
    ∧ (Run [Event; Done; Event] (ex_world ex_state)).2 = selected w_end.
Proof.
  apply (proj1 (Run_nil_only_on_cancellation [Event; Done; Event] (ex_world ex_state)
                  (Run [Event; Done; Event] (ex_world ex_state)).2)).
  vm_compute. reflexivity.
Defined.

Lemma Run_writes_managed_only_witness :
  ∃ calls, trace (Run [Event; Event; Done] (ex_world ex_state_no_config)).2
           = trace (ex_world ex_state_no_config) ++ calls
    ∧ (∀ md, CallUpdate md ∈ calls → in_ManagedResources md)
    ∧ (∀ md, CallDestroy md ∈ calls → in_ManagedResources md).
Proof.
  apply (Run_writes_managed_only mem_manifests [Event; Event; Done]
           (ex_world ex_state_no_config)).
Defined.

Lemma converge_stops_at_failed_upsert_witness :
  converge (take 2 ex_desired ++ {| name := "01-csr-approver-role-binding";
                                    data := [x03; x73; x33; x63; x72; x33; x74] |}
              :: drop 3 ex_desired) (ex_world ex_state_third_fails)
  = (Some (Return (Some (Errorf "error updating manifests"
                           (OtherError "store unavailable")))),
     (converge ex_desired (ex_world ex_state_third_fails)).2)
  ∧ trace (converge ex_desired (ex_world ex_state_third_fails)).2
    = trace (ex_world ex_state_third_fails) ++ (upsertCall <$> take 2 ex_desired)
        ++ [upsertCall {| name := "01-csr-approver-role-binding";
                          data := [x03; x73; x33; x63; x72; x33; x74] |}].
Proof.
  eapply (converge_stops_at_failed_upsert (take 2 ex_desired)).
  - vm_compute. reflexivity.
  - vm_compute. reflexivity.
Defined.

Lemma converge_idempotent_witness :
  mem_manifests (st (converge ex_desired (converge ex_desired (ex_world ex_state)).2).2)
  = mem_manifests (st (converge ex_desired (ex_world ex_state)).2)
  ∧ trace (converge ex_desired (converge ex_desired (ex_world ex_state)).2).2
    = trace (converge ex_desired (ex_world ex_state)).2
        ++ (upsertCall <$> ex_desired) ++ [CallList manifestsMetadata].
Proof.
  apply (converge_idempotent mem_manifests ex_config ex_secret ex_desired
           (ex_world ex_state)).
  - reflexivity.
  - vm_compute. reflexivity.
  - vm_compute. reflexivity.
Defined.

Lemma cycle_result_witness :
  (mem_manifests (st (cycle (ex_world ex_state)).2) = ∅
   ∧ ∃ err w1, IsNotFoundError err = true
               ∧ (r_Get configMetadata (ex_world ex_state) = (Some (Err err), w1)
                  ∨ ∃ configResource w0,
                      r_Get configMetadata (ex_world ex_state)
                      = (Some (Ok configResource), w0)
                      ∧ r_Get secretsMetadata w0 = (Some (Err err), w1)))
  ∨ (∃ md1 cfg md2 scrt renderedManifests w0 w1,
       r_Get configMetadata (ex_world ex_state)
       = (Some (Ok (K8sControlPlane md1 cfg)), w0)
       ∧ r_Get secretsMetadata w0 = (Some (Ok (Kubernetes md2 scrt)), w1)
       ∧ render cfg scrt = Ok renderedManifests
       ∧ mem_manifests (st (cycle (ex_world ex_state)).2)
         = list_to_map ((λ rm, (name rm, data rm)) <$> renderedManifests)).
Proof.
  apply (cycle_result mem_manifests (ex_world ex_state)).
  vm_compute. reflexivity.
Defined.

Lemma loop_managed_names_witness :
  mem_manifests (st (loop [Event; Event] (ex_world ex_state)).2) = ∅
  ∨ ∃ cfg, dom (mem_manifests (st (loop [Event; Event] (ex_world ex_state)).2))
           = list_to_set (manifestNames cfg)
           ∧ ∀ n, n ∈ defaultNames →
                  n ∈ dom (mem_manifests (st (loop [Event; Event] (ex_world ex_state)).2)).
Proof.
  apply (loop_managed_names mem_manifests [Event; Event] (ex_world ex_state)).
  - done.
  - vm_compute. reflexivity.
Defined.

Lemma render_names_first_failure_witness :
  (@template_Parse _ ex_failing_TemplateEngine "11-core-dns-svc" [x0a]
   = Err (OtherError "template: can't evaluate field") →
   @render _ _ ex_failing_TemplateEngine ex_config ex_secret
   = Err (Errorf ("error parsing manifest template " +:+ quoted "11-core-dns-svc")
            (OtherError "template: can't evaluate field")))
  ∧ (∀ tmpl, @template_Parse _ ex_failing_TemplateEngine "11-core-dns-svc" [x0a] = Ok tmpl →
       @template_Execute _ ex_failing_TemplateEngine tmpl
         {| tc_K8sManifestsSpec := ex_config; Secrets := ex_secret |}
       = Err (OtherError "template: can't evaluate field") →
       @render _ _ ex_failing_TemplateEngine ex_config ex_secret
       = Err (Errorf ("error executing template " +:+ quoted "11-core-dns-svc")
                (OtherError "template: can't evaluate field"))).
Proof.
  eapply (@render_names_first_failure _ _ ex_failing_TemplateEngine ex_config ex_secret
            (take 9 (manifestDescs ex_config))
            {| desc_name := "11-core-dns-svc"; desc_template := [x0a] |}).
  - reflexivity.
  - reflexivity.
Defined.

#[local] Existing Instances mount.ex_Constants mount.ex_BlockDevices
  mount.ex_MountPoints mount.ex_Machine.

Lemma SystemMountPointForLabel_mountpoint_witness :
  (None : option mount.error) = None
  ∧ ∃ target partition err' fsType partPath,
      (("STATE" = mount.EphemeralPartitionLabel ∧ target = mount.EphemeralMountPoint)
       ∨ ("STATE" = mount.BootPartitionLabel ∧ target = mount.BootMountPoint)
       ∨ ("STATE" = mount.EFIPartitionLabel ∧ target = mount.EFIMountPoint)
       ∨ ("STATE" = mount.StatePartitionLabel ∧ target = mount.StateMountPoint))
      ∧ mount.GetPartition mount.ex_device "STATE" = (Some partition, err')
      ∧ (err' = None ∨ err' = Some mount.ErrNotExist)
      ∧ mount.Filesystem partition = mount.Ok fsType
      ∧ mount.Path partition = mount.Ok partPath
      ∧ {| mount.ex_source := "/dev/sda5"; mount.ex_target := "/system/state";
           mount.ex_fstype := "xfs"; mount.ex_flags := 1024; mount.ex_data := "" |}
        = mount.NewMountPoint partPath target fsType mount.MS_NOATIME "" [].
Proof.
  apply (mount_properties.SystemMountPointForLabel_mountpoint
           (H := mount.ex_Constants) (H1 := mount.ex_MountPoints)
           mount.ex_device "STATE" []
           {| mount.ex_source := "/dev/sda5"; mount.ex_target := "/system/state";
              mount.ex_fstype := "xfs"; mount.ex_flags := 1024; mount.ex_data := "" |}
           None).
  reflexivity.
Defined.

Lemma SystemMountPointForLabel_device_errors_witness :
  mount.SystemMountPointForLabel mount.ex_broken_device "STATE" []
  = (None, Some (mount.OtherError "unknown filesystem")).
Proof.
  eapply (proj1 (proj2 (mount_properties.SystemMountPointForLabel_device_errors
                          mount.ex_broken_device "STATE" [] _))).
  - reflexivity.
  - by left.
  - reflexivity.
  Unshelve. rewrite !elem_of_cons. tauto.
Defined.
